(** * The league service of jsbattle-server and its ranking index

    Shallow embedding of [app/services/League.service.js] together with the
    ranking index ([RankTable]) that the service drives.  JavaScript numbers
    that the service keeps integral (scores, counters, timestamps, offsets)
    are integers here; the one place where the service leaves the integers,
    the score update, is computed over the rationals. *)

From Stdlib Require Import List ZArith QArith Qround String Ascii Bool Lia.
From Stdlib Require Import Sorted Permutation OrderedTypeEx DecimalString DecimalNat.
From Stdlib Require PrimFloat FloatOps Uint63.
Import ListNotations.

Local Open Scope string_scope.
Local Open Scope Z_scope.

(** ** Data model *)

(** The fields of a league entry that the ranking index tracks
    (the [fields] list of the [app.seed] handler and the object literal
    passed to [ranktable.add] in [joinLeague]). *)
Record RankEntry : Type := mkRankEntry {
  id : string;
  ownerId : string;
  ownerName : string;
  scriptId : string;
  scriptName : string;
  joinedAt : Z;
  fights_total : Z;
  fights_win : Z;
  fights_lose : Z;
  fights_error : Z;
  score : Z
}.

(** Error signals.  [NotFound], [DuplicateId] and [InsufficientEntries] are
    those of the index; [NotAuthorized] is the [ValidationError] 401 of the
    service, [EntityNotFound] the error of the record store for an unknown
    identifier, [ScriptNotFound] the failure of the script store.
    [NoValidPair] is explained at [RankTable.pickRandom]. *)
Inductive Error : Type :=
| NotFound
| DuplicateId
| InsufficientEntries
| NotAuthorized
| EntityNotFound
| NoValidPair
| ScriptNotFound.

Inductive Result (A : Type) : Type :=
| Ok (a : A)
| Err (e : Error).
Arguments Ok {A} a.
Arguments Err {A} e.

Definition string_eqb (a b : string) : bool := String.eqb a b.

(** ** Ordering of entries *)

(** [ranks_before a b]: [a] may precede [b] in the table: higher score
    first, then earlier [joinedAt], then smaller [id]. *)
Definition ranks_before (a b : RankEntry) : Prop :=
  score b < score a \/
  (score a = score b /\
   (joinedAt a < joinedAt b \/
    (joinedAt a = joinedAt b /\ (id a <=? id b)%string = true))).

(** A sequence of entries in ranking order: each entry ranks before all
    later ones. *)
Definition sorted (l : list RankEntry) : Prop := StronglySorted ranks_before l.

Module RankTable.

(** Modelled from the spec: [league/lib/RankTable.js], the class behind
    [this.ranktable], after sections 4.1 to 4.3.  The index is the sequence
    of its entries in iteration order. *)
Definition t : Type := list RankEntry.

(** Modelled from the spec: the index as constructed, empty. *)
Definition empty : t := [].

(** Modelled from the spec: comparator of the composite sort key
    (score desc, joinedAt asc, id asc) of [RankTable.js]. *)
Definition entry_leb (a b : RankEntry) : bool :=
  if score b <? score a then true
  else if score a <? score b then false
  else if joinedAt a <? joinedAt b then true
  else if joinedAt b <? joinedAt a then false
  else (id a <=? id b)%string.

(** Modelled from the spec: insertion at the sorted position, the
    mutation primitive of [RankTable.js]. *)
Fixpoint insert_sorted (e : RankEntry) (l : t) : t :=
  match l with
  | [] => [e]
  | x :: rest => if entry_leb e x then e :: l else x :: insert_sorted e rest
  end.

(** Modelled from the spec: how [RankTable.js] re-establishes the sort
    order of a sequence. *)
Definition sort (l : list RankEntry) : t := fold_right insert_sorted [] l.

(** Modelled from the spec: the lookup of [RankTable.js] that decides
    [NotFound] and [DuplicateId]. *)
Definition has_id (i : string) (l : t) : bool :=
  existsb (fun e => string_eqb (id e) i) l.

(** Modelled from the spec: [GetById] of [RankTable.js]. *)
Definition getById (i : string) (l : t) : Result RankEntry :=
  match find (fun e => string_eqb (id e) i) l with
  | Some e => Ok e
  | None => Err NotFound
  end.

(** Modelled from the spec: [getLength] of [RankTable.js], the [Length]
    of section 4.1. *)
Definition getLength (l : t) : nat := List.length l.

(** Modelled from the spec: [getData] of [RankTable.js], the full table in
    iteration order. *)
Definition getData (l : t) : list RankEntry := l.

(** Modelled from the spec: [init] of [RankTable.js]; [Init] replaces the
    whole content and re-establishes the order; always succeeds. *)
Definition init (entries : list RankEntry) : t := sort entries.

(** Modelled from the spec: [add] of [RankTable.js]; [Add] fails with
    [DuplicateId] when the id is present, else inserts at the sorted
    position. *)
Definition add (e : RankEntry) (l : t) : Result t :=
  if has_id (id e) l then Err DuplicateId else Ok (insert_sorted e l).

(** Modelled from the spec: [remove] of [RankTable.js]; [Remove] fails
    with [NotFound] when absent. *)
Definition remove (i : string) (l : t) : Result t :=
  if has_id i l
  then Ok (filter (fun e => negb (string_eqb (id e) i)) l)
  else Err NotFound.

(** Modelled from the spec: the replacement [updateScore] of
    [RankTable.js] makes; the four fields are set, every other field is
    kept. *)
Definition with_score (s ft fw fl : Z) (e : RankEntry) : RankEntry :=
  {| id := id e; ownerId := ownerId e; ownerName := ownerName e;
     scriptId := scriptId e; scriptName := scriptName e;
     joinedAt := joinedAt e;
     fights_total := ft; fights_win := fw; fights_lose := fl;
     fights_error := fights_error e; score := s |}.

(** Modelled from the spec: [updateScore] of [RankTable.js];
    [UpdateScore] replaces the four fields on the existing entry and
    repositions it so that the order holds again, and fails with [NotFound]
    when absent. *)
Definition updateScore (i : string) (s ft fw fl : Z) (l : t) : Result t :=
  if has_id i l
  then Ok (sort (map (fun e => if string_eqb (id e) i
                               then with_score s ft fw fl e else e) l))
  else Err NotFound.

(** The calls that mutate the index. *)
Inductive Op : Type :=
| OpInit (entries : list RankEntry)
| OpAdd (e : RankEntry)
| OpRemove (i : string)
| OpUpdateScore (i : string) (s ft fw fl : Z).

(** One call on a table. *)
Definition apply_op (l : t) (o : Op) : Result t :=
  match o with
  | OpInit entries => Ok (init entries)
  | OpAdd e => add e l
  | OpRemove i => remove i l
  | OpUpdateScore i s ft fw fl => updateScore i s ft fw fl l
  end.

(** The table after a call: a failing call raises before it touches the
    table. *)
Definition step (l : t) (o : Op) : t :=
  match apply_op l o with
  | Ok l' => l'
  | Err _ => l
  end.

(** The table after a sequence of calls on the empty index. *)
Definition run (ops : list Op) : t := fold_left step ops empty.

(** Modelled from the spec: the anchor lookup of [slice] in
    [RankTable.js]; the rank (0-based) of the entry with identifier [i], if
    present. *)
Fixpoint rank_of (i : string) (l : t) : option nat :=
  match l with
  | [] => None
  | e :: rest =>
      if string_eqb (id e) i then Some O else option_map S (rank_of i rest)
  end.

(** Modelled from the spec: the placement of the window by [slice] in
    [RankTable.js]; first rank of the window of [w] entries around
    rank [r] in a table of [n > w] entries: [w / 2] entries before the
    anchor when there is room, shifted inwards at either boundary
    (subtraction on [nat] stops at the top of the table). *)
Definition window_start (n w r : nat) : nat := Nat.min (r - w / 2) (n - w).

(** Modelled from the spec: [slice] of [RankTable.js], the [WindowQuery]
    of section 4.2; the anchor is absent when the caller has no
    submission. *)
Definition slice (anchor : option string) (w : nat) (l : t) : list RankEntry :=
  if (List.length l <=? w)%nat then l
  else
    match match anchor with Some i => rank_of i l | None => None end with
    | Some r => firstn w (skipn (window_start (List.length l) w r) l)
    | None => firstn w l
    end.

(** Modelled from the spec: the check of [pickRandom] in [RankTable.js];
    a pair is valid for a match when both the identifiers and the script
    identifiers differ. *)
Definition valid_pair (p : RankEntry * RankEntry) : bool :=
  negb (string_eqb (id (fst p)) (id (snd p))) &&
  negb (string_eqb (scriptId (fst p)) (scriptId (snd p))).

(** Modelled from the spec: the unordered pairs of table positions that
    [pickRandom] of [RankTable.js] draws from. *)
Fixpoint pairs (l : list RankEntry) : list (RankEntry * RankEntry) :=
  match l with
  | [] => []
  | a :: rest => map (pair a) rest ++ pairs rest
  end.

(** Modelled from the spec: the valid pairs among them, for [pickRandom]
    of [RankTable.js]. *)
Definition valid_pairs (l : t) : list (RankEntry * RankEntry) :=
  filter valid_pair (pairs l).

(** Modelled from the spec: [pickRandom] of [RankTable.js], the
    [RandomSampler] of section 4.3.  [rng n] is the injected
    source of a random index below [n].  With fewer than two entries the
    pick fails with [InsufficientEntries]; otherwise it is the drawn one
    among the valid unordered pairs.  The spec names no outcome for a table
    of two or more entries without any valid pair; [NoValidPair] stands for
    whatever happens then. *)
Definition pickRandom (rng : nat -> nat) (l : t) : Result (RankEntry * RankEntry) :=
  if (List.length l <? 2)%nat then Err InsufficientEntries
  else
    let candidates := valid_pairs l in
    match nth_error candidates (rng (List.length candidates) mod List.length candidates) with
    | Some p => Ok p
    | None => Err NoValidPair
    end.

End RankTable.

(** ** The record store

    The service mixes in moleculer-db with [idField: 'id']; the collection is
    the sequence of its documents in creation order.  Identifiers are drawn
    by the adapter and never handed out twice: the store counts the documents
    it has created and names the next one by that count in decimal. *)

(** A stored league entry: the tracked fields, the submitted code and its
    hash. *)
Record LeagueEntity : Type := mkLeagueEntity {
  fields : RankEntry;
  code : string;
  hash : option string
}.

Module Store.

Record t : Type := mk {
  rows : list LeagueEntity;
  created : nat
}.

Definition empty : t := {| rows := []; created := O |}.

(** A number in decimal digits. *)
Definition decimal (n : nat) : string := NilEmpty.string_of_uint (Nat.to_uint n).

(** The identifier the next document gets. *)
Definition new_id (s : t) : string := decimal (created s).

Definition has_id (i : string) (e : LeagueEntity) : bool :=
  string_eqb (id (fields e)) i.

(** [get]: [EntityNotFoundError] when no document has the identifier. *)
Definition get (i : string) (s : t) : Result LeagueEntity :=
  match List.find (has_id i) (rows s) with
  | Some e => Ok e
  | None => Err EntityNotFound
  end.

(** [find] with a [query]. *)
Definition find (q : LeagueEntity -> bool) (s : t) : list LeagueEntity :=
  filter q (rows s).

(** [find] with [sort: '-score']: all documents, highest score first. *)
Fixpoint insert_by_score (e : LeagueEntity) (l : list LeagueEntity) : list LeagueEntity :=
  match l with
  | [] => [e]
  | x :: rest =>
      if score (fields x) <? score (fields e) then e :: l
      else x :: insert_by_score e rest
  end.

Definition find_by_score_desc (s : t) : list LeagueEntity :=
  fold_right insert_by_score [] (rows s).

(** [create]: the document gets the next identifier and is appended. *)
Definition create (mk_entity : string -> LeagueEntity) (s : t) : t * LeagueEntity :=
  let e := mk_entity (new_id s) in
  ({| rows := rows s ++ [e]; created := S (created s) |}, e).

(** [remove] by identifier. *)
Definition remove (i : string) (s : t) : t :=
  {| rows := filter (fun e => negb (has_id i e)) (rows s); created := created s |}.

(** [update] by identifier: the given fields are set, the others kept. *)
Definition update (i : string) (set : LeagueEntity -> LeagueEntity) (s : t) : t :=
  {| rows := map (fun e => if has_id i e then set e else e) (rows s);
     created := created s |}.

End Store.

(** ** The league service *)

(** State of the service: the store of league entries and the index
    [this.ranktable]. *)
Record State : Type := mkState {
  store : Store.t;
  ranktable : RankTable.t
}.

Definition initial : State := {| store := Store.empty; ranktable := RankTable.empty |}.

(** An action runs on the state and returns or throws; a throw does not undo
    what was written before it. *)
Definition M (A : Type) : Type := State -> State * Result A.

Definition ret {A : Type} (a : A) : M A := fun st => (st, Ok a).
Definition throw {A : Type} (e : Error) : M A := fun st => (st, Err e).
Definition bind {A B : Type} (m : M A) (k : A -> M B) : M B :=
  fun st =>
    match m st with
    | (st', Ok a) => k a st'
    | (st', Err e) => (st', Err e)
    end.

(** Reads of the store and of the index, and writes to them. *)
Definition ask_store {A : Type} (f : Store.t -> Result A) : M A :=
  fun st => (st, f (store st)).
Definition ask_ranktable {A : Type} (f : RankTable.t -> Result A) : M A :=
  fun st => (st, f (ranktable st)).
Definition set_store (f : Store.t -> Store.t) : M unit :=
  fun st => ({| store := f (store st); ranktable := ranktable st |}, Ok tt).
Definition set_ranktable (f : RankTable.t -> Result RankTable.t) : M unit :=
  fun st =>
    match f (ranktable st) with
    | Ok rt => ({| store := store st; ranktable := rt |}, Ok tt)
    | Err e => (st, Err e)
    end.

Notation "x <- m ;; k" := (bind m (fun x => k))
  (at level 61, m at next level, right associativity).
Notation "m ;;; k" := (bind m (fun _ => k))
  (at level 61, right associativity).

(** [ctx.meta.user ? ctx.meta.user.id : null], then [if(!userId) throw]:
    a missing user and an empty identifier are both refused. *)
Definition authorize (user : option string) : M string :=
  match user with
  | Some u => if string_eqb u "" then throw NotAuthorized else ret u
  | None => throw NotAuthorized
  end.

(** [Math.round]: the nearest integer, halves upwards. *)
Definition Math_round (q : Q) : Z := Qfloor (q + (1 # 2))%Q.

(** [newScore], lines 193-198, as an exact number.  JavaScript computes it
    in doubles ([newScore_double] below); for the scores of the league, 0 to
    10000, [Math.round] gives the same integer on both
    ([newScore_double_exact]), for very large scores it does not
    ([newScore_double_large]). *)
Definition newScore (winner : bool) (s : Z) : Q :=
  if winner
  then (inject_Z s + (inject_Z 10000 - inject_Z s) / inject_Z 25)%Q
  else (inject_Z s + (inject_Z 0 - inject_Z s) / inject_Z 25)%Q.

(** The [$set] of [_update] with the fields of [newEntity]. *)
Definition set_rank (s ft fw fl : Z) (e : LeagueEntity) : LeagueEntity :=
  {| fields := RankTable.with_score s ft fw fl (fields e);
     code := code e; hash := hash e |}.

(** [b ? 1 : 0]. *)
Definition b2z (b : bool) : Z := if b then 1 else 0.

(** [updateRank], lines 181-214.  The write to the store ([this._update],
    line 206) is started but not awaited: the handler returns once the index
    is updated, and the store executes the write before it serves any later
    request.  The write is placed here, where it is started. *)
Definition updateRank (i : string) (winner : bool) : M unit :=
  entity <- ask_store (Store.get i) ;;
  let e := fields entity in
  let new_total := fights_total e + 1 in
  let new_win := fights_win e + b2z winner in
  let new_lose := fights_lose e + b2z (negb winner) in
  let new_score := Math_round (newScore winner (score e)) in
  set_store (Store.update (id e) (set_rank new_score new_total new_win new_lose)) ;;;
  set_ranktable (RankTable.updateScore (id e) new_score new_total new_win new_lose).

(** [pickRandomOpponents], lines 216-224: the pair is drawn from the index
    and both entries are then read from the store. *)
Definition pickRandomOpponents (rng : nat -> nat) : M (list LeagueEntity) :=
  opponents <- ask_ranktable (RankTable.pickRandom rng) ;;
  opponent1 <- ask_store (Store.get (id (fst opponents))) ;;
  opponent2 <- ask_store (Store.get (id (snd opponents))) ;;
  ret [opponent1; opponent2].

(** A script as [scriptStore.getUserScript] returns it. *)
Module Script.
Record t : Type := mk {
  id : string;
  ownerId : string;
  ownerName : string;
  scriptName : string;
  code : string;
  hash : option string
}.
End Script.

(** What [joinLeague] takes from outside the league: the answer of
    [scriptStore.getUserScript] for a script identifier, and what lines
    325-358 leave in [code] (the script's code, obfuscated when the
    configuration asks for it and the obfuscator does not throw). *)
Record World : Type := mkWorld {
  getUserScript : string -> Result Script.t;
  published : string -> string
}.

(** Parameters of [league.create]. *)
Record CreateParams : Type := mkCreateParams {
  p_ownerId : string;
  p_ownerName : string;
  p_scriptId : string;
  p_scriptName : string;
  p_code : string;
  p_hash : option string;
  p_score : option Z
}.

(** The [before create] hook [addDefaults], lines 93-102: the date of
    creation, zeroed counters, [score || 0]; the store then assigns the
    identifier. *)
Definition addDefaults (now : Z) (p : CreateParams) (new_id : string) : LeagueEntity :=
  {| fields :=
       {| id := new_id;
          ownerId := p_ownerId p; ownerName := p_ownerName p;
          scriptId := p_scriptId p; scriptName := p_scriptName p;
          joinedAt := now;
          fights_total := 0; fights_win := 0; fights_lose := 0; fights_error := 0;
          score := match p_score p with Some s => s | None => 0 end |};
     code := p_code p;
     hash := p_hash p |}.

(** [ctx.call('league.create', params)]. *)
Definition create (now : Z) (p : CreateParams) : M LeagueEntity :=
  fun st =>
    let (s', e) := Store.create (addDefaults now p) (store st) in
    ({| store := s'; ranktable := ranktable st |}, Ok e).

(** [for(let x of l) f(x)]. *)
Fixpoint for_each {A : Type} (l : list A) (f : A -> M unit) : M unit :=
  match l with
  | [] => ret tt
  | x :: rest => f x ;;; for_each rest f
  end.

(** [filename.replace(/\.tank$/, '')]. *)
Fixpoint strip_tank (filename : string) : string :=
  if string_eqb filename ".tank" then EmptyString
  else
    match filename with
    | EmptyString => EmptyString
    | String c rest => String c (strip_tank rest)
    end.

(** Lines 229-235: the entry of the seed file at position [index]. *)
Definition seed_entry (index : nat) (file : string * string) : CreateParams :=
  {| p_ownerId := "int-user-0000-1";
     p_ownerName := "jsbattle";
     p_scriptId := "int-script-0000-" ++ Store.decimal (index + 1);
     p_scriptName := strip_tank (fst file);
     p_code := snd file;
     p_hash := None;
     p_score := None |}.

(** The query of lines 238-241. *)
Definition is_seeded (p : CreateParams) (e : LeagueEntity) : bool :=
  string_eqb (ownerName (fields e)) "jsbattle" &&
  string_eqb (scriptName (fields e)) (p_scriptName p).

(** [seedLeague], lines 226-250.  [files] are the names and contents of the
    seed directory.  [map] starts every lookup before the first creation, so
    each seed is looked up in the store as it is on entry. *)
Definition seedLeague (files : list (string * string)) (now : Z) : M unit :=
  let entries :=
    map (fun f => seed_entry (fst f) (snd f))
        (combine (seq 0 (List.length files)) files) in
  missing <- ask_store (fun s =>
    Ok (filter (fun p => match Store.find (is_seeded p) s with
                         | [] => true
                         | _ => false
                         end) entries)) ;;
  for_each missing (fun p => create now p ;;; ret tt).

(** The [app.seed] handler, lines 107-129. *)
Definition appSeed (files : list (string * string)) (now : Z) : M unit :=
  seedLeague files now ;;;
  initData <- ask_store (fun s => Ok (map fields (Store.find_by_score_desc s))) ;;
  set_ranktable (fun _ => Ok (RankTable.init initData)).

(** The query [{ownerId: userId}]. *)
Definition owned_by (userId : string) (e : LeagueEntity) : bool :=
  string_eqb (ownerId (fields e)) userId.

(** [getUserSubmission], lines 252-303: the first league entry of the user,
    or none ([{}]).  The fight history and the [latest] flag that the
    handler attaches are read from other services and are left out. *)
Definition getUserSubmission (user : option string) : M (option LeagueEntity) :=
  userId <- authorize user ;;
  leagueEntry <- ask_store (fun s => Ok (Store.find (owned_by userId) s)) ;;
  ret (hd_error leagueEntry).

(** What [getUserRankTable] returns. *)
Record Summary : Type := mkSummary {
  submission : option LeagueEntity;
  window : list RankEntry
}.

(** [getUserRankTable], lines 412-442. *)
Definition getUserRankTable (user : option string) : M Summary :=
  authorize user ;;;
  submission <- getUserSubmission user ;;
  rows <- ask_ranktable (fun rt =>
    Ok (RankTable.slice (option_map (fun e => id (fields e)) submission) 9 rt)) ;;
  ret {| submission := submission; window := rows |}.

(** [getLeagueSummary], lines 444-455, without the fight history. *)
Definition getLeagueSummary (user : option string) : M Summary :=
  authorize user ;;;
  getUserRankTable user.

(** [leaveLeague], lines 387-410: the removals from the store are started
    first, the index is then purged entry by entry. *)
Definition leaveLeague (user : option string) : M Summary :=
  userId <- authorize user ;;
  submissions <- ask_store (fun s => Ok (Store.find (owned_by userId) s)) ;;
  for_each submissions (fun e => set_store (Store.remove (id (fields e)))) ;;;
  for_each submissions (fun e => set_ranktable (RankTable.remove (id (fields e)))) ;;;
  getLeagueSummary user.

(** Lines 318-321: the score the new entry starts with. *)
Definition startingScore (script_id : string) (currentSubmission : option LeagueEntity) : Z :=
  match currentSubmission with
  | Some cur =>
      if string_eqb script_id (scriptId (fields cur)) then score (fields cur) else 0
  | None => 0
  end.

(** Lines 360-368: the parameters of the creation. *)
Definition submitted (w : World) (script : Script.t) (score : Z) : CreateParams :=
  {| p_ownerId := Script.ownerId script;
     p_ownerName := Script.ownerName script;
     p_scriptId := Script.id script;
     p_scriptName := Script.scriptName script;
     p_code := published w (Script.code script);
     p_hash := Script.hash script;
     p_score := Some score |}.

(** [joinLeague], lines 305-385. *)
Definition joinLeague (w : World) (user : option string) (script_id : string) (now : Z)
  : M Summary :=
  userId <- authorize user ;;
  script <- (fun st => (st, getUserScript w script_id)) ;;
  if negb (string_eqb (Script.ownerId script) userId) then throw NotAuthorized
  else
    currentSubmission <- getUserSubmission user ;;
    let startingScore := startingScore script_id currentSubmission in
    leaveLeague user ;;;
    entity <- create now (submitted w script startingScore) ;;
    set_ranktable (RankTable.add (fields entity)) ;;;
    getLeagueSummary user.

(** [Array.prototype.slice(start, end)] on indices within the integers. *)
Definition js_slice {A : Type} (l : list A) (start stop : nat) : list A :=
  firstn (stop - start) (skipn start l).

(** [x || d] on a number parameter. *)
Definition or_default (x : option nat) (d : nat) : nat :=
  match x with
  | Some (S n) => S n
  | _ => d
  end.

Record RankPage : Type := mkRankPage {
  rows : list RankEntry;
  page : nat;
  pageSize : nat;
  total : nat;
  totalPages : nat
}.

(** Line 463: the rows of the table from [offset] to [offset + pageSize]. *)
Definition rows_at (offset count : nat) (rt : RankTable.t) : list RankEntry :=
  js_slice (RankTable.getData rt) offset (offset + count).

(** [listRankTable], lines 457-471. *)
Definition listRankTable (page pageSize : option nat) (st : State) : RankPage :=
  let page := or_default page 1 in
  let pageSize := or_default pageSize 10 in
  let total := RankTable.getLength (ranktable st) in
  let totalPages := ((total + pageSize - 1) / pageSize)%nat in
  let offset := ((page - 1) * pageSize)%nat in
  let rows := rows_at offset pageSize (ranktable st) in
  {| rows := rows; page := page; pageSize := pageSize;
     total := total; totalPages := totalPages |}.

(** ** Runs of the service *)

Inductive Action : Type :=
| AppSeed (files : list (string * string)) (now : Z)
| JoinLeague (w : World) (user : option string) (script_id : string) (now : Z)
| LeaveLeague (user : option string)
| UpdateRank (i : string) (winner : bool).

(** The state an action leaves, whether it returns or throws. *)
Definition perform (st : State) (a : Action) : State :=
  match a with
  | AppSeed files now => fst (appSeed files now st)
  | JoinLeague w user script_id now => fst (joinLeague w user script_id now st)
  | LeaveLeague user => fst (leaveLeague user st)
  | UpdateRank i winner => fst (updateRank i winner st)
  end.

Definition run (actions : list Action) : State := fold_left perform actions initial.

(** The score and the counters of the stored entry [i], when there is one. *)
Definition stored (i : string) (st : State) : option RankEntry :=
  match Store.get i (store st) with
  | Ok e => Some (fields e)
  | Err _ => None
  end.

Definition indexed (i : string) (st : State) : option RankEntry :=
  match RankTable.getById i (ranktable st) with
  | Ok e => Some e
  | Err _ => None
  end.

(** The invariants of the data model on a table: the sort order, and one
    entry per identifier. *)
Definition index_state (l : RankTable.t) : Prop :=
  StronglySorted ranks_before l /\ NoDup (map id l).

(** Whether [i] is the identifier of one of [subs]. *)
Definition listed (subs : list LeagueEntity) (i : string) : bool :=
  existsb (fun s => string_eqb (id (fields s)) i) subs.

(** The state without the entries of owner [u]. *)
Definition purged (u : string) (st : State) : State :=
  {| store := {| Store.rows := filter (fun e => negb (owned_by u e)) (Store.rows (store st));
                 Store.created := Store.created (store st) |};
     ranktable := filter (fun e => negb (string_eqb (ownerId e) u)) (ranktable st) |}.

(** The state once the entry [e] is created and indexed. *)
Definition joined (e : LeagueEntity) (st : State) : State :=
  {| store := {| Store.rows := Store.rows (store st) ++ [e];
                 Store.created := S (Store.created (store st)) |};
     ranktable := RankTable.insert_sorted (fields e) (ranktable st) |}.

(** The store hands out each identifier once: the identifiers of its
    documents differ and were all issued before the next one. *)
Definition store_ok (s : Store.t) : Prop :=
  NoDup (map (fun e => id (fields e)) (Store.rows s)) /\
  Forall (fun e => exists k, (k < Store.created s)%nat /\ id (fields e) = Store.decimal k)
         (Store.rows s).

(** The index mirrors the store: it holds the tracked fields of the stored
    entries, each once. *)
Definition consistent (st : State) : Prop :=
  store_ok (store st) /\
  Permutation (map fields (Store.rows (store st))) (RankTable.getData (ranktable st)).

(** How far from centred the anchor at rank [r] sits in the window of [w]
    entries that starts at rank [start]: the difference between the number
    of entries before it and after it. *)
Definition imbalance (w r start : nat) : Z :=
  Z.abs ((Z.of_nat r - Z.of_nat start) -
         (Z.of_nat start + Z.of_nat w - 1 - Z.of_nat r)).

(** ** Sample data *)

(** An entry as a first submission of user [k] would be stored, with score
    [s]. *)
Definition sample_entry (s : Z) (k : nat) : RankEntry :=
  {| id := Store.decimal k;
     ownerId := "user-" ++ Store.decimal k;
     ownerName := "user";
     scriptId := "script-" ++ Store.decimal k;
     scriptName := "tank";
     joinedAt := 1000;
     fights_total := 0; fights_win := 0; fights_lose := 0; fights_error := 0;
     score := s |}.

(** A table of [n] entries initialised in one go. *)
Definition sample_table (n : nat) : RankTable.t :=
  RankTable.run [RankTable.OpInit (map (sample_entry 0) (seq 0 n))].

(** Two users and their scripts, as in the unit tests of the service. *)
Definition ownScript : Script.t :=
  {| Script.id := "152674";
     Script.ownerId := "92864";
     Script.ownerName := "monica83";
     Script.scriptName := "reptori8743";
     Script.code := "// hello 17487252";
     Script.hash := None |}.

Definition otherScript : Script.t :=
  {| Script.id := "999999";
     Script.ownerId := "123456";
     Script.ownerName := "another_user";
     Script.scriptName := "secret script";
     Script.code := "// hello 48772";
     Script.hash := None |}.

Definition sample_world : World :=
  {| getUserScript := fun i =>
       if string_eqb i "152674" then Ok ownScript
       else if string_eqb i "999999" then Ok otherScript
       else Err ScriptNotFound;
     published := fun c => c |}.

Definition monica_joins : Action := JoinLeague sample_world (Some "92864") "152674" 1000.
Definition another_joins : Action := JoinLeague sample_world (Some "123456") "999999" 2000.

(** The submission an action returns, if it returns one. *)
Definition submission_of (r : State * Result Summary) : option LeagueEntity :=
  match snd r with
  | Ok summary => submission summary
  | Err _ => None
  end.

(** ** The score formula in doubles *)

(** The double of an integer (exact below 2^53 in magnitude). *)
Definition double_of_Z (z : Z) : PrimFloat.float :=
  if z <? 0 then PrimFloat.opp (PrimFloat.of_uint63 (Uint63.of_Z (- z)))
  else PrimFloat.of_uint63 (Uint63.of_Z z).

(** The number a finite double stands for. *)
Definition double_value (x : PrimFloat.float) : option Q :=
  match FloatOps.Prim2SF x with
  | SpecFloat.S754_zero _ => Some 0%Q
  | SpecFloat.S754_finite negative m e =>
      let magnitude :=
        (inject_Z (Z.pos m) *
         (if e <? 0 then 1 # (2 ^ Z.to_pos (- e)) else inject_Z (2 ^ e)))%Q in
      Some (if negative then (- magnitude)%Q else magnitude)
  | _ => None
  end.

(** [newScore], lines 193-198, in the arithmetic of JavaScript. *)
Definition newScore_double (winner : bool) (s : Z) : PrimFloat.float :=
  let score := double_of_Z s in
  if winner
  then PrimFloat.add score (PrimFloat.div (PrimFloat.sub (double_of_Z 10000) score)
                                          (double_of_Z 25))
  else PrimFloat.add score (PrimFloat.div (PrimFloat.sub (double_of_Z 0) score)
                                          (double_of_Z 25)).

(** [Math.round] of a finite double. *)
Definition Math_round_double (x : PrimFloat.float) : option Z :=
  option_map Math_round (double_value x).

(** Whether the exact formula and the doubles give the same new score. *)
Definition scores_agree (winner : bool) (s : Z) : bool :=
  match Math_round_double (newScore_double winner s) with
  | Some z => z =? Math_round (newScore winner s)
  | None => false
  end.

(** ** More of the league service *)

(** What [getScript] returns. *)
Record ScriptView : Type := mkScriptView {
  view_id : string;
  view_scriptName : string;
  view_code : string
}.

(** [getScript], lines 134-156. *)
Definition getScript (user : option string) (script_id : string) : M ScriptView :=
  authorize user ;;;
  response <- ask_store (Store.get script_id) ;;
  ret {| view_id := id (fields response);
         view_scriptName :=
           (ownerName (fields response) ++ "/" ++ scriptName (fields response))%string;
         view_code := code response |}.

(** The rows of the pages 1 to [n] of [listRankTable], one after the
    other. *)
Definition pages_upto (n : nat) (pageSize : option nat) (st : State) : list RankEntry :=
  flat_map (fun k => rows (listRankTable (Some (S k)) pageSize st)) (seq 0 n).

(** The entries [seedLeague] builds from the seed files (lines 228-235), and
    those among them it finds no document for (lines 237-243). *)
Definition seed_entries (files : list (string * string)) : list CreateParams :=
  map (fun f => seed_entry (fst f) (snd f))
      (combine (seq 0 (List.length files)) files).

Definition missing_seeds (files : list (string * string)) (s : Store.t) : list CreateParams :=
  filter (fun p => match Store.find (is_seeded p) s with
                   | [] => true
                   | _ => false
                   end) (seed_entries files).

(** The documents that creating [ps] one after the other adds, the first
    one under the number [n]. *)
Fixpoint created_docs (now : Z) (ps : list CreateParams) (n : nat) : list LeagueEntity :=
  match ps with
  | [] => []
  | p :: rest => addDefaults now p (Store.decimal n) :: created_docs now rest (S n)
  end.

(** ** The store write of [updateRank]

    [updateRank] starts its write to the store (line 206) without awaiting
    it: it returns once the index is updated, and the store carries the
    write out at some later moment.  Here the two are apart. *)

(** [updateRank] up to its return, lines 181-214: the entry is read, the
    write is started, the index is updated. *)
Definition updateRank_returns (i : string) (winner : bool) : M unit :=
  entity <- ask_store (Store.get i) ;;
  let e := fields entity in
  let new_total := fights_total e + 1 in
  let new_win := fights_win e + b2z winner in
  let new_lose := fights_lose e + b2z (negb winner) in
  let new_score := Math_round (newScore winner (score e)) in
  set_ranktable (RankTable.updateScore (id e) new_score new_total new_win new_lose).

(** A started write reaches the store: the [_update] of line 206 with the
    fields of [newEntity] (lines 199-205). *)
Definition store_write (i : string) (s ft fw fl : Z) : M unit :=
  set_store (Store.update i (set_rank s ft fw fl)).

(** What happens to the service: a request is handled, with the write of an
    [updateRank] carried out before anything else happens; an [updateRank]
    returns with its write only started; a write reaches the store.  The
    moment of a write and its values are left free, so that every order in
    which the store may carry out the started writes, and every write that
    never arrives, is among the runs. *)
Inductive Event : Type :=
| Handled (a : Action)
| Returned (i : string) (winner : bool)
| Written (i : string) (s ft fw fl : Z).

Definition occur (st : State) (ev : Event) : State :=
  match ev with
  | Handled a => perform st a
  | Returned i winner => fst (updateRank_returns i winner st)
  | Written i s ft fw fl => fst (store_write i s ft fw fl st)
  end.

Definition reached (events : list Event) : State := fold_left occur events initial.

(** An entry without the four fields [updateRank] writes. *)
Definition unscored (e : RankEntry) : RankEntry := RankTable.with_score 0 0 0 0 e.

(** The index holds the stored entries, each once, up to the fields
    [updateRank] writes. *)
Definition mirrors (st : State) : Prop :=
  store_ok (store st) /\
  Permutation (map (fun e => unscored (fields e)) (Store.rows (store st)))
              (map unscored (RankTable.getData (ranktable st))).

(** ** The user store service

    [UserStoreService] keeps the users of the site in a moleculer-db
    collection.  Strings are sequences of code units below 256, which covers
    every character its patterns accept. *)

Module UserStore.

Inductive Error : Type :=
| UsernameRequired
| UsernameTooShort
| UsernameInvalid
| UsernameReserved
| DisplayNameRequired
| DisplayNameTooShort
| DisplayNameInvalid
| NotAuthorized
| EntityNotFound
| AlreadyInitialized
| UsernameTaken
| UserRequired
| ExtUserIdRequired
| NameRequired
| ProviderRequired
| TypeError
| InvalidEntity.

Inductive Result (A : Type) : Type :=
| Ok (a : A)
| Err (e : Error).
Arguments Ok {A} a.
Arguments Err {A} e.

(** Character classes of the patterns of lines 644 and 666. *)
Definition is_upper (c : ascii) : bool :=
  let n := nat_of_ascii c in ((65 <=? n) && (n <=? 90))%nat.
Definition is_lower (c : ascii) : bool :=
  let n := nat_of_ascii c in ((97 <=? n) && (n <=? 122))%nat.
Definition is_digit (c : ascii) : bool :=
  let n := nat_of_ascii c in ((48 <=? n) && (n <=? 57))%nat.

(** [[A-Za-z0-9_.-]]. *)
Definition username_char (c : ascii) : bool :=
  is_upper c || is_lower c || is_digit c ||
  Ascii.eqb c "_" || Ascii.eqb c "." || Ascii.eqb c "-".

(** [[A-Za-z0-9_. -]]. *)
Definition displayName_char (c : ascii) : bool :=
  is_upper c || is_lower c || is_digit c ||
  Ascii.eqb c "_" || Ascii.eqb c "." || Ascii.eqb c " " || Ascii.eqb c "-".

Fixpoint all_chars (p : ascii -> bool) (s : string) : bool :=
  match s with
  | EmptyString => true
  | String c rest => p c && all_chars p rest
  end.

(** [/^[...]+$/.test(s)]: at least one character, all of the class. *)
Definition matches_class (p : ascii -> bool) (s : string) : bool :=
  match s with
  | EmptyString => false
  | _ => all_chars p s
  end.

(** [toLowerCase] on one code unit below 256: the letters A to Z and the
    capital letters from U+00C0 to U+00DE (U+00D7 is the multiplication
    sign). *)
Definition lower_char (c : ascii) : ascii :=
  let n := nat_of_ascii c in
  if (((65 <=? n) && (n <=? 90)) ||
      ((192 <=? n) && (n <=? 222) && negb (n =? 215)))%nat
  then ascii_of_nat (n + 32)
  else c.

Fixpoint toLowerCase (s : string) : string :=
  match s with
  | EmptyString => EmptyString
  | String c rest => String (lower_char c) (toLowerCase rest)
  end.

Definition reservedNames : list string := ["jsbattle"; "sandbox"; "user"; "admin"].

(** [validateUserName], lines 637-657. *)
Definition validateUserName (username : string) : Result unit :=
  if string_eqb username "" then Err UsernameRequired
  else if (String.length username <? 3)%nat then Err UsernameTooShort
  else if negb (matches_class username_char username) then Err UsernameInvalid
  else if existsb (string_eqb (toLowerCase username)) reservedNames
       then Err UsernameReserved
  else Ok tt.

(** [validateDisplayName], lines 659-669. *)
Definition validateDisplayName (displayName : string) : Result unit :=
  if string_eqb displayName "" then Err DisplayNameRequired
  else if (String.length displayName <? 3)%nat then Err DisplayNameTooShort
  else if negb (matches_class displayName_char displayName) then Err DisplayNameInvalid
  else Ok tt.

(** A document of the collection. *)
Record User : Type := mkUser {
  id : string;
  username : string;
  displayName : string;
  provider : string;
  extUserId : string;
  email : option string;
  registered : bool;
  role : string;
  createdAt : Z;
  lastLoginAt : Z
}.

(** The [user] parameter of [findOrCreate], as the login providers hand it
    in; a field may be missing. *)
Record ExtUser : Type := mkExtUser {
  x_extUserId : option string;
  x_username : option string;
  x_provider : option string;
  x_email : option string;
  x_displayName : option string
}.

(** What the service takes from its configuration and from [validators]:
    the administrators ([auth.admins], provider and user name), and whether
    the [entityValidator] of lines 592-602 lets a new document pass. *)
Record Config : Type := mkConfig {
  admins : list (string * string);
  entity_valid : User -> bool
}.

(** The collection, and the number of documents created so far, which names
    the next one. *)
Record Db : Type := mkDb {
  users : list User;
  created : nat
}.

Definition empty : Db := {| users := []; created := O |}.

(** Truthiness of an optional string, and [a || b]. *)
Definition truthy (o : option string) : bool :=
  match o with
  | Some s => negb (string_eqb s "")
  | None => false
  end.

Definition or_else (a b : option string) : option string :=
  if truthy a then a else b.

Definition no_line_end (s : string) : bool :=
  all_chars (fun c => negb (Ascii.eqb c "010" || Ascii.eqb c "013")) s.

(** [email.replace(/@.*$/, '')]: cut from the first [@] that is followed by
    no line terminator up to the end. *)
Fixpoint strip_at (s : string) : string :=
  match s with
  | EmptyString => EmptyString
  | String c rest =>
      if Ascii.eqb c "@" && no_line_end rest then EmptyString
      else String c (strip_at rest)
  end.

(** [displayName.replace(' ', '')]: without its first space. *)
Fixpoint drop_space (s : string) : string :=
  match s with
  | EmptyString => EmptyString
  | String c rest => if Ascii.eqb c " " then rest else String c (drop_space rest)
  end.

(** The default of [username] in the [before create] hook, line 615.
    [replace] on a missing [email] or [displayName] is a [TypeError]. *)
Definition default_username (username email displayName : option string) : Result string :=
  match username with
  | Some u =>
      if negb (string_eqb u "") then Ok u
      else
        match email with
        | None => Err TypeError
        | Some e =>
            let from_email := toLowerCase (strip_at e) in
            if negb (string_eqb from_email "") then Ok from_email
            else
              match displayName with
              | None => Err TypeError
              | Some d =>
                  let from_name := toLowerCase (drop_space d) in
                  if negb (string_eqb from_name "") then Ok from_name else Ok "anonymous"
              end
        end
  | None =>
      match email with
      | None => Err TypeError
      | Some e =>
          let from_email := toLowerCase (strip_at e) in
          if negb (string_eqb from_email "") then Ok from_email
          else
            match displayName with
            | None => Err TypeError
            | Some d =>
                let from_name := toLowerCase (drop_space d) in
                if negb (string_eqb from_name "") then Ok from_name else Ok "anonymous"
            end
      end
  end.

(** The user model of lines 762-771 after the hook [addDefaults] of lines
    611-620, under the identifier the store assigns. *)
Definition new_user (now : Z) (role : string) (user : ExtUser) (new_id : string)
  : Result User :=
  let model_displayName := or_else (x_displayName user) (x_username user) in
  match default_username (x_username user) (x_email user) model_displayName with
  | Err e => Err e
  | Ok name =>
      Ok {| id := new_id;
            username := name;
            displayName := match or_else model_displayName (Some name) with
                           | Some d => if string_eqb d "" then "Anonymous" else d
                           | None => "Anonymous"
                           end;
            provider := match x_provider user with Some p => p | None => "" end;
            extUserId := match x_extUserId user with Some x => x | None => "" end;
            email := x_email user;
            registered := false;
            role := if string_eqb role "" then "user" else role;
            createdAt := now;
            lastLoginAt := now |}
  end.

Definition is_admin (c : Config) (user : ExtUser) : bool :=
  existsb (fun admin =>
             match x_provider user, x_username user with
             | Some p, Some u => string_eqb (fst admin) p && string_eqb (snd admin) u
             | _, _ => false
             end) (admins c).

(** [findOrCreate], lines 732-774. *)
Definition findOrCreate (c : Config) (now : Z) (user : option ExtUser) (db : Db)
  : Db * Result User :=
  match user with
  | None => (db, Err UserRequired)
  | Some user =>
      if negb (truthy (x_extUserId user)) then (db, Err ExtUserIdRequired)
      else if negb (truthy (x_username user)) && negb (truthy (x_email user)) &&
              negb (truthy (x_displayName user)) then (db, Err NameRequired)
      else if negb (truthy (x_provider user)) then (db, Err ProviderRequired)
      else
        match filter (fun r => match x_extUserId user with
                               | Some x => string_eqb (extUserId r) x
                               | None => false
                               end) (users db) with
        | found :: _ => (db, Ok found)
        | [] =>
            let role := if is_admin c user then "admin" else "user" in
            match new_user now role user (Store.decimal (created db)) with
            | Err e => (db, Err e)
            | Ok doc =>
                if entity_valid c doc
                then ({| users := users db ++ [doc]; created := S (created db) |}, Ok doc)
                else (db, Err InvalidEntity)
            end
        end
  end.

(** A parameter that [register] iterates (lines 719-726): missing or
    falsy, so that [|| []] replaces it; an iterable with its items, each as
    the text it is sent as; or a truthy value that [for ... of] cannot
    iterate, such as a number. *)
Inductive Param : Type :=
| Falsy
| Iterable (items : list string)
| NotIterable.

(** The services [register] calls once the user is stored: what
    [Promise.all] gives over the calls to [challenges.updateUserChallange]
    and [scriptStore.createUserScript] made with the given challenges and
    scripts, and the answer of [auth.whoami], as text.  None of them is
    part of this service. *)
Record Services : Type := mkServices {
  initCalls : list string -> list string -> Result unit;
  whoami : Result string
}.

(** [for (let item of p || [])], lines 719-726; what is not iterable
    throws a [TypeError]. *)
Definition items_of (p : Param) : Result (list string) :=
  match p with
  | Falsy => Ok []
  | Iterable items => Ok items
  | NotIterable => Err TypeError
  end.

(** [Promise.all(initCalls)], line 727: nothing to wait for without a
    call. *)
Definition Promise_all (w : Services) (challenges scripts : list string) : Result unit :=
  match challenges, scripts with
  | [], [] => Ok tt
  | _, _ => initCalls w challenges scripts
  end.

(** The end of [register], lines 714-729, after the user is stored: the
    challenges and the scripts of the request are sent to their services and
    the answer of [auth.whoami] is returned.  (Line 715 also writes the new
    user name into the meta data of the request.) *)
Definition register_init (w : Services) (p_challenges p_scripts : Param) : Result string :=
  match items_of p_challenges with
  | Err e => Err e
  | Ok challenges =>
      match items_of p_scripts with
      | Err e => Err e
      | Ok scripts =>
          match Promise_all w challenges scripts with
          | Err e => Err e
          | Ok _ => whoami w
          end
      end
  end.

(** [register], lines 671-730. *)
Definition register (w : Services) (userId : option string)
           (p_username p_displayName : option string) (p_challenges p_scripts : Param)
           (db : Db) : Db * Result string :=
  match userId with
  | None => (db, Err NotAuthorized)
  | Some uid =>
      if string_eqb uid "" then (db, Err NotAuthorized)
      else
        let username := match p_username with
                        | Some u => if truthy p_username then toLowerCase u else ""
                        | None => ""
                        end in
        let displayName := match p_displayName with
                           | Some d => d
                           | None => ""
                           end in
        match find (fun r => string_eqb (id r) uid) (users db) with
        | None => (db, Err EntityNotFound)
        | Some response =>
            if registered response then (db, Err AlreadyInitialized)
            else
              let username := if string_eqb username "" then UserStore.username response
                              else username in
              let displayName := if string_eqb displayName ""
                                 then UserStore.displayName response
                                 else displayName in
              match validateUserName username with
              | Err e => (db, Err e)
              | Ok _ =>
                  match validateDisplayName displayName with
                  | Err e => (db, Err e)
                  | Ok _ =>
                      match filter (fun r => string_eqb (UserStore.username r) username &&
                                             registered r) (users db) with
                      | _ :: _ => (db, Err UsernameTaken)
                      | [] =>
                          ({| users :=
                                map (fun r =>
                                       if string_eqb (id r) uid
                                       then {| id := id r;
                                               username := username;
                                               displayName := displayName;
                                               provider := provider r;
                                               extUserId := extUserId r;
                                               email := email r;
                                               registered := true;
                                               role := role r;
                                               createdAt := createdAt r;
                                               lastLoginAt := lastLoginAt r |}
                                       else r) (users db);
                              created := created db |},
                           register_init w p_challenges p_scripts)
                      end
                  end
              end
        end
  end.

(** Calls on the service, and the collection after a sequence of them. *)
Inductive Call : Type :=
| FindOrCreate (c : Config) (now : Z) (user : option ExtUser)
| Register (w : Services) (userId : option string)
           (p_username p_displayName : option string) (p_challenges p_scripts : Param).

Definition perform (db : Db) (call : Call) : Db :=
  match call with
  | FindOrCreate c now user => fst (findOrCreate c now user db)
  | Register w userId u d challenges scripts =>
      fst (register w userId u d challenges scripts db)
  end.

Definition run (calls : list Call) : Db := fold_left perform calls empty.

End UserStore.

(** The document [r] once registered under the given names: what the update
    of lines 708-713 sets. *)
Definition registered_as (username displayName : string) (r : UserStore.User)
  : UserStore.User :=
  {| UserStore.id := UserStore.id r;
     UserStore.username := username;
     UserStore.displayName := displayName;
     UserStore.provider := UserStore.provider r;
     UserStore.extUserId := UserStore.extUserId r;
     UserStore.email := UserStore.email r;
     UserStore.registered := true;
     UserStore.role := UserStore.role r;
     UserStore.createdAt := UserStore.createdAt r;
     UserStore.lastLoginAt := UserStore.lastLoginAt r |}.

(** The names [register] settles on, lines 677-678 and 690-691. *)
Definition registration_username (p_username : option string) (r : UserStore.User) : string :=
  match p_username with
  | Some u => if string_eqb u "" then UserStore.username r else UserStore.toLowerCase u
  | None => UserStore.username r
  end.

Definition registration_displayName (p_displayName : option string) (r : UserStore.User)
  : string :=
  match p_displayName with
  | Some d => if string_eqb d "" then UserStore.displayName r else d
  | None => UserStore.displayName r
  end.

(** The collection keeps its documents apart: one per identifier, one per
    external identifier, identifiers issued by the store, and no document
    without a user name or a display name. *)
Definition users_ok (db : UserStore.Db) : Prop :=
  NoDup (map UserStore.id (UserStore.users db)) /\
  NoDup (map UserStore.extUserId (UserStore.users db)) /\
  Forall (fun r => exists k, (k < UserStore.created db)%nat /\
                             UserStore.id r = Store.decimal k) (UserStore.users db) /\
  Forall (fun r => UserStore.username r <> "" /\ UserStore.displayName r <> "")
         (UserStore.users db).

(** The registered users carry names that pass the validation, and no two
    of them the same user name. *)
Definition registered_ok (db : UserStore.Db) : Prop :=
  Forall (fun r => UserStore.registered r = true ->
                   UserStore.validateUserName (UserStore.username r) = UserStore.Ok tt /\
                   UserStore.validateDisplayName (UserStore.displayName r) = UserStore.Ok tt)
         (UserStore.users db) /\
  NoDup (map UserStore.username (filter UserStore.registered (UserStore.users db))).

(** Sample users: a configuration without restrictions on new documents, a
    user as a login provider reports her, and one known by display name
    only. *)
Definition sample_config : UserStore.Config :=
  {| UserStore.admins := [("google", "monica83")];
     UserStore.entity_valid := fun _ => true |}.

Definition monica : UserStore.ExtUser :=
  {| UserStore.x_extUserId := Some "google_123";
     UserStore.x_username := Some "Monica83";
     UserStore.x_provider := Some "google";
     UserStore.x_email := Some "monica@example.com";
     UserStore.x_displayName := Some "Monica" |}.

Definition amy : UserStore.ExtUser :=
  {| UserStore.x_extUserId := Some "github_456";
     UserStore.x_username := Some "amy";
     UserStore.x_provider := Some "github";
     UserStore.x_email := None;
     UserStore.x_displayName := None |}.

Definition nameless : UserStore.ExtUser :=
  {| UserStore.x_extUserId := Some "github_7";
     UserStore.x_username := None;
     UserStore.x_provider := Some "github";
     UserStore.x_email := None;
     UserStore.x_displayName := Some "Jo Doe" |}.

(** Services that answer every call. *)
Definition sample_services : UserStore.Services :=
  {| UserStore.initCalls := fun _ _ => UserStore.Ok tt;
     UserStore.whoami := UserStore.Ok "{}" |}.

(** Monica and Amy logged in once each, and Monica registered. *)
Definition sample_users : UserStore.Db :=
  UserStore.run [UserStore.FindOrCreate sample_config 0 (Some monica);
                 UserStore.FindOrCreate sample_config 0 (Some amy);
                 UserStore.Register sample_services (Some "0") (Some "Monica83") None
                                    UserStore.Falsy UserStore.Falsy].

(** The same, with Monica registered under the name her login provider
    reports, which [register] takes as it is (line 690). *)
Definition sample_users_capital : UserStore.Db :=
  UserStore.run [UserStore.FindOrCreate sample_config 0 (Some monica);
                 UserStore.FindOrCreate sample_config 0 (Some amy);
                 UserStore.Register sample_services (Some "0") None None
                                    UserStore.Falsy UserStore.Falsy].

(** ** Facts about the order *)

Section StringOrder.

Lemma string_leb_refl (s : string) : (s <=? s)%string = true.
Proof.
  unfold String.leb.
  pose proof (proj2 (String_as_OT.cmp_eq s s) eq_refl) as H.
  unfold String_as_OT.cmp in H. now rewrite H.
Qed.

Lemma string_leb_trans (a b c : string) :
  (a <=? b)%string = true -> (b <=? c)%string = true -> (a <=? c)%string = true.
Proof.
  unfold String.leb.
  destruct (String.compare a b) eqn:Hab; try discriminate; intros _;
    destruct (String.compare b c) eqn:Hbc; try discriminate; intros _.
  - apply String.compare_eq_iff in Hab, Hbc. subst.
    pose proof (proj2 (String_as_OT.cmp_eq c c) eq_refl) as Hcc.
    unfold String_as_OT.cmp in Hcc. now rewrite Hcc.
  - apply String.compare_eq_iff in Hab. subst. now rewrite Hbc.
  - apply String.compare_eq_iff in Hbc. subst. now rewrite Hab.
  - apply String_as_OT.cmp_lt in Hab, Hbc.
    pose proof (String_as_OT.lt_trans _ _ _ Hab Hbc) as Hac.
    apply String_as_OT.cmp_lt in Hac. unfold String_as_OT.cmp in Hac.
    now rewrite Hac.
Qed.

End StringOrder.

Lemma string_eqb_eq (a b : string) : string_eqb a b = true <-> a = b.
Proof. apply String.eqb_eq. Qed.

Lemma string_eqb_neq (a b : string) : string_eqb a b = false <-> a <> b.
Proof. apply String.eqb_neq. Qed.

Lemma entry_leb_spec (a b : RankEntry) :
  RankTable.entry_leb a b = true <-> ranks_before a b.
Proof.
  unfold RankTable.entry_leb, ranks_before.
  destruct (Z.ltb_spec (score b) (score a)); [intuition lia|].
  destruct (Z.ltb_spec (score a) (score b)); [intuition (try lia; discriminate)|].
  destruct (Z.ltb_spec (joinedAt a) (joinedAt b)); [intuition lia|].
  destruct (Z.ltb_spec (joinedAt b) (joinedAt a)); [intuition (try lia; discriminate)|].
  intuition lia.
Qed.

Lemma ranks_before_total (a b : RankEntry) : ranks_before a b \/ ranks_before b a.
Proof.
  unfold ranks_before.
  destruct (Z.lt_trichotomy (score a) (score b)) as [?|[?|?]]; try (intuition lia).
  destruct (Z.lt_trichotomy (joinedAt a) (joinedAt b)) as [?|[?|?]]; try (intuition lia).
  destruct (String.leb_total (id a) (id b)); intuition lia.
Qed.

Lemma ranks_before_trans (a b c : RankEntry) :
  ranks_before a b -> ranks_before b c -> ranks_before a c.
Proof.
  unfold ranks_before.
  intros [?|[? [?|[? Hab]]]] [?|[? [?|[? Hbc]]]]; try (intuition lia).
  right. split; [lia|]. right. split; [lia|].
  eapply string_leb_trans; eauto.
Qed.

Lemma ranks_before_antisym (a b : RankEntry) :
  ranks_before a b -> ranks_before b a -> id a = id b.
Proof.
  unfold ranks_before.
  intros [?|[? [?|[? Hab]]]] [?|[? [?|[? Hba]]]]; try lia.
  now apply String.leb_antisym.
Qed.

Lemma entry_leb_false (a b : RankEntry) :
  RankTable.entry_leb a b = false -> ranks_before b a.
Proof.
  intros H. destruct (ranks_before_total a b) as [Hab|]; [|assumption].
  apply entry_leb_spec in Hab. congruence.
Qed.

(** ** Sortedness of the index *)

Lemma insert_sorted_perm (e : RankEntry) (l : list RankEntry) :
  Permutation (e :: l) (RankTable.insert_sorted e l).
Proof.
  induction l as [|x rest IH]; simpl; [reflexivity|].
  destruct (RankTable.entry_leb e x); [reflexivity|].
  rewrite perm_swap. now constructor.
Qed.

Lemma sort_perm (l : list RankEntry) : Permutation l (RankTable.sort l).
Proof.
  induction l as [|x rest IH]; simpl; [constructor|].
  rewrite <- insert_sorted_perm. now constructor.
Qed.

Lemma insert_sorted_sorted (e : RankEntry) (l : list RankEntry) :
  sorted l -> sorted (RankTable.insert_sorted e l).
Proof.
  unfold sorted. induction l as [|x rest IH]; simpl; intros Hs.
  - repeat constructor.
  - inversion Hs as [|? ? Hrest Hall]; subst.
    destruct (RankTable.entry_leb e x) eqn:Hle.
    + apply entry_leb_spec in Hle. constructor; [assumption|].
      constructor; [assumption|].
      eapply Forall_impl; [|exact Hall].
      intros y Hy. eapply ranks_before_trans; eauto.
    + apply entry_leb_false in Hle. constructor; [now apply IH|].
      eapply Permutation_Forall; [apply insert_sorted_perm|].
      now constructor.
Qed.

Lemma sort_sorted (l : list RankEntry) : sorted (RankTable.sort l).
Proof.
  induction l as [|x rest IH]; simpl; [constructor|].
  now apply insert_sorted_sorted.
Qed.

Lemma filter_sorted (f : RankEntry -> bool) (l : list RankEntry) :
  sorted l -> sorted (filter f l).
Proof.
  unfold sorted. induction 1 as [|x rest Hrest IH Hall]; simpl; [constructor|].
  destruct (f x); [|assumption].
  constructor; [assumption|].
  apply Forall_forall. intros y Hy. apply filter_In in Hy.
  rewrite Forall_forall in Hall. now apply Hall.
Qed.

Lemma apply_op_sorted (l l' : RankTable.t) (o : RankTable.Op) :
  sorted l -> RankTable.apply_op l o = Ok l' -> sorted l'.
Proof.
  intros Hs. destruct o as [entries|e|i|i s ft fw fl]; simpl.
  - intros [= <-]. apply sort_sorted.
  - unfold RankTable.add. destruct (RankTable.has_id (id e) l); [discriminate|].
    intros [= <-]. now apply insert_sorted_sorted.
  - unfold RankTable.remove. destruct (RankTable.has_id i l); [|discriminate].
    intros [= <-]. now apply filter_sorted.
  - unfold RankTable.updateScore. destruct (RankTable.has_id i l); [|discriminate].
    intros [= <-]. apply sort_sorted.
Qed.

Lemma step_sorted (l : RankTable.t) (o : RankTable.Op) :
  sorted l -> sorted (RankTable.step l o).
Proof.
  intros Hs. unfold RankTable.step.
  destruct (RankTable.apply_op l o) eqn:Ho; [|assumption].
  eapply apply_op_sorted; eauto.
Qed.

Lemma steps_sorted (ops : list RankTable.Op) (l : RankTable.t) :
  sorted l -> sorted (fold_left RankTable.step ops l).
Proof.
  revert l. induction ops as [|o ops IH]; simpl; intros l Hs; [assumption|].
  apply IH. now apply step_sorted.
Qed.

Lemma run_sorted (ops : list RankTable.Op) : sorted (RankTable.run ops).
Proof. unfold RankTable.run. apply steps_sorted. constructor. Qed.

(** C1.  After any sequence of [Init], [Add], [Remove] and [UpdateScore]
    calls on an empty index, the full iteration of the table is ordered by
    score descending, ties broken by [joinedAt] ascending, then by [id]
    ascending: every entry ranks before every later one. *)
Theorem sort_invariant (ops : list RankTable.Op) :
  StronglySorted ranks_before (RankTable.getData (RankTable.run ops)).
Proof.
  unfold RankTable.getData. apply run_sorted.
Qed.

(** ** [updateRank] *)

Lemma find_map_if {A : Type} (p : A -> bool) (f : A -> A) (l : list A) :
  (forall x, p x = true -> p (f x) = true) ->
  find p (map (fun x => if p x then f x else x) l) = option_map f (find p l).
Proof.
  intros Hp. induction l as [|x rest IH]; simpl; [reflexivity|].
  destruct (p x) eqn:Hx.
  - now rewrite (Hp x Hx).
  - now rewrite Hx.
Qed.

Lemma store_get_id (i : string) (s : Store.t) (e : LeagueEntity) :
  Store.get i s = Ok e -> id (fields e) = i /\ In e (Store.rows s).
Proof.
  unfold Store.get. destruct (find (Store.has_id i) (Store.rows s)) eqn:Hf; [|discriminate].
  intros [= <-]. apply find_some in Hf. destruct Hf as [Hin Hid].
  split; [now apply string_eqb_eq|assumption].
Qed.

Lemma store_get_update (i : string) (set : LeagueEntity -> LeagueEntity)
      (s : Store.t) (e : LeagueEntity) :
  (forall x, id (fields (set x)) = id (fields x)) ->
  Store.get i s = Ok e ->
  Store.get i (Store.update i set s) = Ok (set e).
Proof.
  intros Hset. unfold Store.get, Store.update. simpl.
  rewrite find_map_if.
  - destruct (find (Store.has_id i) (Store.rows s)); [|discriminate].
    now intros [= ->].
  - intros x. unfold Store.has_id. now rewrite Hset.
Qed.

Lemma updateRank_state (st : State) (i : string) (winner : bool) (entity : LeagueEntity) :
  Store.get i (store st) = Ok entity ->
  let e := fields entity in
  let s := Math_round (newScore winner (score e)) in
  let ft := fights_total e + 1 in
  let fw := fights_win e + b2z winner in
  let fl := fights_lose e + b2z (negb winner) in
  store (fst (updateRank i winner st)) = Store.update i (set_rank s ft fw fl) (store st) /\
  ranktable (fst (updateRank i winner st)) =
    match RankTable.updateScore i s ft fw fl (ranktable st) with
    | Ok rt => rt
    | Err _ => ranktable st
    end.
Proof.
  intros Hget. destruct (store_get_id _ _ _ Hget) as [Hid _].
  unfold updateRank, bind, ask_store, set_store, set_ranktable.
  rewrite Hget. cbn zeta. rewrite Hid. cbn [store ranktable].
  destruct (RankTable.updateScore i _ _ _ _ (ranktable st)); cbn; auto.
Qed.

Lemma has_id_find (i : string) (l : RankTable.t) :
  RankTable.has_id i l = true ->
  exists e, find (fun e => string_eqb (id e) i) l = Some e.
Proof.
  unfold RankTable.has_id. intros H. apply existsb_exists in H.
  destruct H as [x [Hin Hx]].
  destruct (find (fun e => string_eqb (id e) i) l) eqn:Hf; [eauto|].
  eapply find_none in Hf; eauto. congruence.
Qed.

Lemma getById_has_id (i : string) (l : RankTable.t) (e : RankEntry) :
  RankTable.getById i l = Ok e -> RankTable.has_id i l = true /\ In e l /\ id e = i.
Proof.
  unfold RankTable.getById.
  destruct (find (fun e => string_eqb (id e) i) l) eqn:Hf; [|discriminate].
  intros [= <-]. apply find_some in Hf. destruct Hf as [Hin Hid].
  repeat split; auto.
  - apply existsb_exists. eauto.
  - now apply string_eqb_eq.
Qed.

(** After [UpdateScore] every entry carrying the identifier carries the new
    values. *)
Lemma updateScore_getById (i : string) (s ft fw fl : Z) (l l' : RankTable.t) :
  RankTable.updateScore i s ft fw fl l = Ok l' ->
  exists e x, RankTable.getById i l' = Ok e /\ In x l /\ id x = i /\
              e = RankTable.with_score s ft fw fl x.
Proof.
  unfold RankTable.updateScore. destruct (RankTable.has_id i l) eqn:Hhas; [|discriminate].
  intros [= <-].
  set (upd := fun e => if string_eqb (id e) i then RankTable.with_score s ft fw fl e else e).
  assert (Hhas' : RankTable.has_id i (RankTable.sort (map upd l)) = true).
  { unfold RankTable.has_id in *. apply existsb_exists in Hhas.
    destruct Hhas as [x [Hin Hx]]. apply existsb_exists.
    exists (upd x). split.
    - eapply Permutation_in; [apply sort_perm|]. now apply in_map.
    - unfold upd. now rewrite Hx. }
  destruct (has_id_find _ _ Hhas') as [e He].
  unfold RankTable.getById. rewrite He.
  apply find_some in He. destruct He as [Hin Hid].
  apply (Permutation_in _ (Permutation_sym (sort_perm _))) in Hin.
  apply in_map_iff in Hin. destruct Hin as [x [Hx Hinx]].
  exists e, x. split; [reflexivity|]. split; [assumption|].
  unfold upd in Hx. destruct (string_eqb (id x) i) eqn:Hxi.
  - split; [now apply string_eqb_eq|now symmetry].
  - subst e. congruence.
Qed.

(** The score formula in integer arithmetic. *)
Lemma newScore_closed (winner : bool) (s : Z) :
  Math_round (newScore winner s) =
  if winner then (48 * s + 20025) / 50 else (48 * s + 25) / 50.
Proof.
  unfold newScore, Math_round.
  destruct winner.
  - assert (H : (inject_Z s + (inject_Z 10000 - inject_Z s) / inject_Z 25 + (1 # 2) ==
                 (48 * s + 20025) # 50)%Q).
    { unfold Qeq, Qplus, Qminus, Qdiv, Qmult, Qinv, Qopp, inject_Z.
      cbn -[Z.mul Z.add Z.opp Z.sub Pos.mul]. lia. }
    rewrite H. reflexivity.
  - assert (H : (inject_Z s + (inject_Z 0 - inject_Z s) / inject_Z 25 + (1 # 2) ==
                 (48 * s + 25) # 50)%Q).
    { unfold Qeq, Qplus, Qminus, Qdiv, Qmult, Qinv, Qopp, inject_Z.
      cbn -[Z.mul Z.add Z.opp Z.sub Pos.mul]. lia. }
    rewrite H. reflexivity.
Qed.

Lemma updateRank_effect (st : State) (i : string) (winner : bool) (entity : LeagueEntity) :
  Store.get i (store st) = Ok entity ->
  let e := fields entity in
  let s := Math_round (newScore winner (score e)) in
  let ft := fights_total e + 1 in
  let fw := fights_win e + b2z winner in
  let fl := fights_lose e + b2z (negb winner) in
  let st' := fst (updateRank i winner st) in
  Store.get i (store st') = Ok (set_rank s ft fw fl entity) /\
  (RankTable.has_id i (ranktable st) = true ->
   exists x, In x (ranktable st) /\ id x = i /\
     RankTable.getById i (ranktable st') = Ok (RankTable.with_score s ft fw fl x)).
Proof.
  intros Hget e s ft fw fl st'.
  destruct (updateRank_state st i winner entity Hget) as [Hstore Hrt].
  fold e s ft fw fl st' in Hstore, Hrt. split.
  - rewrite Hstore. now apply store_get_update.
  - intros Hhas. rewrite Hrt.
    destruct (RankTable.updateScore i s ft fw fl (ranktable st)) as [rt|err] eqn:Hupd.
    + destruct (updateScore_getById _ _ _ _ _ _ _ Hupd) as [e' [x [Hg [Hin [Hid ->]]]]].
      eauto.
    + unfold RankTable.updateScore in Hupd. rewrite Hhas in Hupd. discriminate.
Qed.

(** C2.  For an entry that exists in the store with a score [s] of the
    league, from 0 to 10000, [updateRank] leaves it with score
    [round(s + (10000 - s)/25)] after a win and [round(s + (0 - s)/25)]
    after a loss, in the store and, when the index holds the entry, in the
    index; from score 0 the sequence win, win, lose gives 400, 784, 753. *)
Theorem updateRank_score (st : State) (i : string) (entity : LeagueEntity) :
  Store.get i (store st) = Ok entity ->
  0 <= score (fields entity) <= 10000 ->
  let s := inject_Z (score (fields entity)) in
  (forall winner : bool,
     let st' := fst (updateRank i winner st) in
     let s' := Math_round (if winner
                           then s + (inject_Z 10000 - s) / inject_Z 25
                           else s + (inject_Z 0 - s) / inject_Z 25)%Q in
     option_map score (stored i st') = Some s' /\
     (indexed i st <> None -> option_map score (indexed i st') = Some s')) /\
  (score (fields entity) = 0 ->
   let st1 := fst (updateRank i true st) in
   let st2 := fst (updateRank i true st1) in
   let st3 := fst (updateRank i false st2) in
   option_map score (stored i st1) = Some 400 /\
   option_map score (stored i st2) = Some 784 /\
   option_map score (stored i st3) = Some 753).
Proof.
  intros Hget _ s. split.
  - intros winner st' s'.
    destruct (updateRank_effect st i winner entity Hget) as [Hs Hr].
    split.
    + unfold stored, st'. rewrite Hs. cbn. unfold s', s, newScore.
      now destruct winner.
    + intros Hidx. unfold indexed in *.
      destruct (RankTable.getById i (ranktable st)) as [e0|] eqn:He0; [|congruence].
      apply getById_has_id in He0. destruct He0 as [Hhas _].
      destruct (Hr Hhas) as [x [_ [_ Hg]]]. unfold st'. rewrite Hg. cbn.
      unfold s', s, newScore. now destruct winner.
  - intros Hzero st1 st2 st3.
    destruct (updateRank_effect st i true entity Hget) as [H1 _]. fold st1 in H1.
    destruct (updateRank_effect st1 i true _ H1) as [H2 _]. fold st2 in H2.
    destruct (updateRank_effect st2 i false _ H2) as [H3 _]. fold st3 in H3.
    unfold stored. rewrite H1, H2, H3. cbn. rewrite Hzero.
    repeat split; reflexivity.
Qed.

(** C7.  For a stored entry with [fights_total = fights_win + fights_lose],
    [updateRank] leaves the entry with [fights_total] one higher, with
    [fights_win] one higher and [fights_lose] unchanged after a win, with
    [fights_lose] one higher and [fights_win] unchanged after a loss, and
    the equality holds again; the index receives the same three values. *)
Theorem updateRank_fights (st : State) (i : string) (winner : bool)
        (entity : LeagueEntity) :
  Store.get i (store st) = Ok entity ->
  fights_total (fields entity) = fights_win (fields entity) + fights_lose (fields entity) ->
  let e := fields entity in
  let st' := fst (updateRank i winner st) in
  exists e',
    stored i st' = Some e' /\
    fights_total e' = fights_total e + 1 /\
    fights_win e' = (if winner then fights_win e + 1 else fights_win e) /\
    fights_lose e' = (if winner then fights_lose e else fights_lose e + 1) /\
    fights_total e' = fights_win e' + fights_lose e' /\
    (indexed i st <> None ->
     exists r, indexed i st' = Some r /\
       fights_total r = fights_total e' /\
       fights_win r = fights_win e' /\
       fights_lose r = fights_lose e').
Proof.
  intros Hget Heq e st'.
  destruct (updateRank_effect st i winner entity Hget) as [Hs Hr].
  fold e st' in Hs, Hr.
  eexists. split; [unfold stored; rewrite Hs; reflexivity|].
  cbn. fold e in Heq. destruct winner; cbn; repeat split; try lia.
  all: intros Hidx; unfold indexed in *;
    destruct (RankTable.getById i (ranktable st)) as [e0|] eqn:He0; [|congruence];
    apply getById_has_id in He0; destruct He0 as [Hhas _];
    destruct (Hr Hhas) as [x [_ [_ Hg]]]; rewrite Hg;
    eexists; split; [reflexivity|]; cbn; auto.
Qed.

(** ** Pages of the table *)

Lemma skipn_sorted (k : nat) (l : list RankEntry) : sorted l -> sorted (skipn k l).
Proof.
  unfold sorted. revert l. induction k as [|k IH]; intros l Hs; [assumption|].
  destruct l as [|x rest]; [constructor|].
  simpl. apply IH. now inversion Hs.
Qed.

Lemma firstn_sorted (k : nat) (l : list RankEntry) : sorted l -> sorted (firstn k l).
Proof.
  unfold sorted. revert l. induction k as [|k IH]; intros l Hs; [constructor|].
  destruct l as [|x rest]; [constructor|].
  inversion Hs as [|? ? Hrest Hall]; subst. simpl. constructor; [now apply IH|].
  rewrite Forall_forall in *. intros y Hy. apply Hall.
  eapply (In_nth_error) in Hy. destruct Hy as [j Hj].
  rewrite nth_error_firstn in Hj. destruct (j <? k)%nat; [|discriminate].
  eapply nth_error_In; eauto.
Qed.

Lemma rows_at_firstn_skipn (offset count : nat) (rt : RankTable.t) :
  rows_at offset count rt = firstn count (skipn offset (RankTable.getData rt)).
Proof.
  unfold rows_at, js_slice. now rewrite Nat.add_comm, Nat.add_sub.
Qed.

(** C4.  The rows [listRankTable] returns are those of the table from
    [offset = (page - 1) * pageSize] on, [pageSize] of them or as many as
    are left, in the order of the table, which is sorted; none when the
    offset is at or beyond the length; [page] defaults to 1 and [pageSize]
    to 10.  Over 25 entries with 10 per page: 10 rows at offsets 0 and 10,
    5 at offset 20, none at offset 25. *)
Theorem listRankTable_pages :
  (forall (ops : list RankTable.Op) (offset count : nat),
     let rt := RankTable.run ops in
     let rows := rows_at offset count rt in
     rows = firstn count (skipn offset (RankTable.getData rt)) /\
     List.length rows = Nat.min count (RankTable.getLength rt - offset) /\
     StronglySorted ranks_before rows /\
     (forall k : nat, rows_at (RankTable.getLength rt + k) count rt = [])) /\
  (forall (st : State) (p ps : option nat),
     let r := listRankTable p ps st in
     page r = or_default p 1 /\ pageSize r = or_default ps 10 /\
     rows r = rows_at ((page r - 1) * pageSize r) (pageSize r) (ranktable st)) /\
  or_default None 1 = 1%nat /\ or_default None 10 = 10%nat /\
  (let rt := sample_table 25 in
   RankTable.getLength rt = 25%nat /\
   List.length (rows_at 0 10 rt) = 10%nat /\
   List.length (rows_at 10 10 rt) = 10%nat /\
   List.length (rows_at 20 10 rt) = 5%nat /\
   rows_at 25 10 rt = [] /\
   forall s : Store.t,
     let st := {| store := s; ranktable := rt |} in
     List.length (rows (listRankTable None None st)) = 10%nat /\
     List.length (rows (listRankTable (Some 2%nat) (Some 10%nat) st)) = 10%nat /\
     List.length (rows (listRankTable (Some 3%nat) (Some 10%nat) st)) = 5%nat /\
     rows (listRankTable (Some 4%nat) (Some 10%nat) st) = []).
Proof.
  split; [|split; [|split; [|split]]].
  - intros ops offset count rt rows.
    pose proof (run_sorted ops) as Hsorted. fold rt in Hsorted.
    unfold rows. rewrite !rows_at_firstn_skipn.
    repeat split.
    + rewrite length_firstn, length_skipn. reflexivity.
    + apply firstn_sorted, skipn_sorted. exact Hsorted.
    + intros k. rewrite rows_at_firstn_skipn.
      rewrite skipn_all2; [now destruct count|].
      unfold RankTable.getLength, RankTable.getData. lia.
  - intros st p ps r. repeat split.
  - reflexivity.
  - reflexivity.
  - vm_compute. repeat split.
Qed.

(** ** The window around an anchor *)

Lemma rank_of_nth (i : string) (l : RankTable.t) (r : nat) :
  RankTable.rank_of i l = Some r ->
  exists e, nth_error l r = Some e /\ id e = i.
Proof.
  revert r. induction l as [|x rest IH]; simpl; intros r; [discriminate|].
  destruct (string_eqb (id x) i) eqn:Hx.
  - intros [= <-]. exists x. split; [reflexivity|now apply string_eqb_eq].
  - destruct (RankTable.rank_of i rest) as [r0|]; [|discriminate].
    intros [= <-]. simpl. now apply IH.
Qed.

Lemma window_start_bounds (n w r : nat) :
  (w < n)%nat -> (0 < w)%nat -> (r < n)%nat ->
  let start := RankTable.window_start n w r in
  (start <= r < start + w)%nat /\ (start + w <= n)%nat.
Proof.
  intros Hn Hw Hr. unfold RankTable.window_start.
  pose proof (Nat.div_mod_eq w 2) as Hdiv.
  pose proof (Nat.mod_upper_bound w 2 ltac:(lia)) as Hmod.
  lia.
Qed.

Lemma window_start_centred (n w r start' : nat) :
  (w < n)%nat -> (r < n)%nat -> (start' + w <= n)%nat ->
  imbalance w r (RankTable.window_start n w r) <= imbalance w r start'.
Proof.
  intros Hn Hr Hs. unfold RankTable.window_start, imbalance.
  pose proof (Nat.div_mod_eq w 2) as Hdiv.
  pose proof (Nat.mod_upper_bound w 2 ltac:(lia)) as Hmod.
  lia.
Qed.

Lemma nth_error_window {A : Type} (l : list A) (start w r : nat) :
  (start <= r < start + w)%nat ->
  nth_error (firstn w (skipn start l)) (r - start) = nth_error l r.
Proof.
  intros Hr. rewrite nth_error_firstn.
  destruct (Nat.ltb_spec (r - start) w); [|lia].
  rewrite nth_error_skipn. f_equal. lia.
Qed.

(** C3, for windows of at least one entry (the service asks for 9; a window
    of no entry holds no anchor).  With [n <= w] entries the window
    is the whole table whatever the anchor.  With [n > w >= 1] and the
    anchor at rank [r], the window is the [w] consecutive entries of the
    sorted table from some rank [start] on, it contains the anchor, and no
    other placement of [w] consecutive entries within the table has the
    anchor nearer to its middle. *)
Theorem slice_window (ops : list RankTable.Op) (w : nat) :
  let l := RankTable.run ops in
  let n := List.length l in
  (forall anchor, (n <= w)%nat -> RankTable.slice anchor w l = l) /\
  StronglySorted ranks_before l /\
  (forall i r, (w < n)%nat -> (0 < w)%nat -> RankTable.rank_of i l = Some r ->
     let rows := RankTable.slice (Some i) w l in
     exists start,
       rows = firstn w (skipn start l) /\
       List.length rows = w /\
       StronglySorted ranks_before rows /\
       (start <= r < start + w)%nat /\ (start + w <= n)%nat /\
       (exists e, nth_error l r = Some e /\ id e = i /\
                  nth_error rows (r - start) = Some e) /\
       (forall start', (start' + w <= n)%nat ->
          imbalance w r start <= imbalance w r start')).
Proof.
  intros l n. split; [|split].
  - intros anchor Hn. unfold RankTable.slice. fold n.
    now rewrite (proj2 (Nat.leb_le n w) Hn).
  - apply run_sorted.
  - intros i r Hn Hw Hrank rows.
    destruct (rank_of_nth _ _ _ Hrank) as [e [Hnth Hid]].
    assert (Hr : (r < n)%nat).
    { apply nth_error_Some. congruence. }
    destruct (window_start_bounds n w r Hn Hw Hr) as [Hin Hfit].
    exists (RankTable.window_start n w r).
    assert (Hrows : rows = firstn w (skipn (RankTable.window_start n w r) l)).
    { unfold rows, RankTable.slice. fold n.
      destruct (Nat.leb_spec n w); [lia|]. now rewrite Hrank. }
    split; [exact Hrows|]. rewrite Hrows.
    split; [rewrite length_firstn, length_skipn; fold n; lia|].
    split; [apply firstn_sorted, skipn_sorted, run_sorted|].
    split; [exact Hin|]. split; [exact Hfit|].
    split.
    + exists e. repeat split; auto. now rewrite nth_error_window.
    + intros start' Hs. now apply window_start_centred.
Qed.

(** ** Repositioning an entry *)

Lemma sorted_perm_unique (l1 l2 : list RankEntry) :
  sorted l1 -> sorted l2 -> Permutation l1 l2 -> NoDup (map id l1) -> l1 = l2.
Proof.
  unfold sorted. revert l2. induction l1 as [|a t1 IH]; intros l2 H1 H2 Hp Hnd.
  - now apply Permutation_nil in Hp.
  - destruct l2 as [|b t2].
    { apply Permutation_sym, Permutation_nil in Hp. discriminate. }
    inversion H1 as [|? ? Ht1 Ha]; subst.
    inversion H2 as [|? ? Ht2 Hb]; subst.
    inversion Hnd as [|? ? Hnotin Hnd']; subst.
    rewrite Forall_forall in Ha, Hb.
    assert (Hab : a = b).
    { assert (Hina : In a (b :: t2)) by (eapply Permutation_in; [exact Hp|now left]).
      assert (Hinb : In b (a :: t1))
        by (eapply Permutation_in; [apply Permutation_sym; exact Hp|now left]).
      destruct Hina as [->|Hina]; [reflexivity|].
      destruct Hinb as [->|Hinb]; [reflexivity|].
      exfalso. apply Hnotin.
      rewrite (ranks_before_antisym a b (Ha _ Hinb) (Hb _ Hina)).
      now apply in_map. }
    subst b. f_equal. apply IH; auto.
    eapply Permutation_cons_inv; eauto.
Qed.

Lemma not_has_id_filter (i : string) (l : RankTable.t) :
  RankTable.has_id i (filter (fun e => negb (string_eqb (id e) i)) l) = false.
Proof.
  unfold RankTable.has_id. induction l as [|x rest IH]; simpl; [reflexivity|].
  destruct (string_eqb (id x) i) eqn:Hx; simpl; [assumption|].
  now rewrite Hx.
Qed.

Lemma has_id_false_iff (i : string) (l : RankTable.t) :
  RankTable.has_id i l = false <-> ~ In i (map id l).
Proof.
  unfold RankTable.has_id. induction l as [|x rest IH]; simpl; [tauto|].
  rewrite orb_false_iff, IH, string_eqb_neq. tauto.
Qed.

Lemma has_id_true_iff (i : string) (l : RankTable.t) :
  RankTable.has_id i l = true <-> In i (map id l).
Proof.
  unfold RankTable.has_id. induction l as [|x rest IH]; simpl; [intuition discriminate|].
  rewrite orb_true_iff, IH, string_eqb_eq. tauto.
Qed.

Lemma filter_absent_id (i : string) (l : RankTable.t) :
  ~ In i (map id l) -> filter (fun e => negb (string_eqb (id e) i)) l = l.
Proof.
  induction l as [|x rest IH]; simpl; intros Hn; [reflexivity|].
  destruct (string_eqb (id x) i) eqn:Hx.
  - apply string_eqb_eq in Hx. tauto.
  - simpl. f_equal. apply IH. tauto.
Qed.

Lemma map_absent_id (i : string) (f : RankEntry -> RankEntry) (l : RankTable.t) :
  ~ In i (map id l) -> map (fun e => if string_eqb (id e) i then f e else e) l = l.
Proof.
  induction l as [|x rest IH]; simpl; intros Hn; [reflexivity|].
  destruct (string_eqb (id x) i) eqn:Hx.
  - apply string_eqb_eq in Hx. tauto.
  - f_equal. apply IH. tauto.
Qed.

Lemma filter_map_id_incl (f : RankEntry -> bool) (l : RankTable.t) (i : string) :
  In i (map id (filter f l)) -> In i (map id l).
Proof.
  rewrite !in_map_iff. intros [x [Hx Hin]]. apply filter_In in Hin.
  exists x. tauto.
Qed.

Lemma filter_NoDup_ids (f : RankEntry -> bool) (l : RankTable.t) :
  NoDup (map id l) -> NoDup (map id (filter f l)).
Proof.
  induction l as [|x rest IH]; simpl; intros Hnd; [constructor|].
  inversion Hnd as [|? ? Hnotin Hnd']; subst.
  destruct (f x); simpl; auto.
  constructor; auto. intros Hin. apply Hnotin. eapply filter_map_id_incl; eauto.
Qed.

(** Replacing the fields of the one entry [i] in place gives the entries of
    the table without [i], and the replaced entry. *)
Lemma replace_perm (i : string) (f : RankEntry -> RankEntry) (l : RankTable.t)
      (e : RankEntry) :
  NoDup (map id l) -> In e l -> id e = i ->
  Permutation (map (fun x => if string_eqb (id x) i then f x else x) l)
              (f e :: filter (fun x => negb (string_eqb (id x) i)) l).
Proof.
  intros Hnd Hin Hid. induction l as [|x rest IH]; [contradiction|].
  inversion Hnd as [|? ? Hnotin Hnd']; subst. simpl.
  destruct (string_eqb (id x) (id e)) eqn:Hx.
  - apply string_eqb_eq in Hx.
    assert (x = e).
    { destruct Hin as [|Hin]; [assumption|].
      exfalso. apply Hnotin. rewrite Hx. now apply in_map. }
    subst x. simpl.
    rewrite map_absent_id, filter_absent_id by assumption. reflexivity.
  - simpl. destruct Hin as [->|Hin].
    + apply string_eqb_neq in Hx. congruence.
    + rewrite perm_swap. constructor. now apply IH.
Qed.

(** C8.  On a table that satisfies the invariants of the index and holds an
    entry [e] with identifier [i], [UpdateScore] gives the very table that
    [Remove i] followed by [Add] of [e] with the four fields replaced
    gives; that table is sorted and holds the replaced entry under [i]. *)
Theorem updateScore_is_remove_add (l : RankTable.t) (i : string) (s ft fw fl : Z)
        (e : RankEntry) :
  index_state l ->
  RankTable.getById i l = Ok e ->
  let e' := RankTable.with_score s ft fw fl e in
  exists removed updated,
    RankTable.remove i l = Ok removed /\
    RankTable.add e' removed = Ok updated /\
    RankTable.updateScore i s ft fw fl l = Ok updated /\
    index_state updated /\
    RankTable.getById i updated = Ok e' /\
    Permutation updated (e' :: removed).
Proof.
  intros [Hsorted Hnd] Hget e'.
  destruct (getById_has_id _ _ _ Hget) as [Hhas [Hin Hid]].
  set (removed := filter (fun x => negb (string_eqb (id x) i)) l).
  assert (Hfresh : RankTable.has_id (id e') removed = false).
  { cbn. rewrite Hid. apply not_has_id_filter. }
  exists removed, (RankTable.insert_sorted e' removed).
  assert (Hperm : Permutation (RankTable.insert_sorted e' removed) (e' :: removed)).
  { apply Permutation_sym, insert_sorted_perm. }
  assert (Hs' : sorted (RankTable.insert_sorted e' removed)).
  { apply insert_sorted_sorted, filter_sorted. exact Hsorted. }
  assert (Hnd' : NoDup (map id (e' :: removed))).
  { simpl. constructor.
    - apply has_id_false_iff. exact Hfresh.
    - now apply filter_NoDup_ids. }
  assert (Hnd'' : NoDup (map id (RankTable.insert_sorted e' removed))).
  { eapply Permutation_NoDup; [|exact Hnd'].
    apply Permutation_map, Permutation_sym, Hperm. }
  split; [unfold RankTable.remove; now rewrite Hhas|].
  split; [unfold RankTable.add; now rewrite Hfresh|].
  split.
  - unfold RankTable.updateScore. rewrite Hhas. f_equal.
    apply sorted_perm_unique.
    + apply sort_sorted.
    + exact Hs'.
    + rewrite <- sort_perm, Hperm. now apply replace_perm.
    + eapply Permutation_NoDup; [|exact Hnd'].
      apply Permutation_map. rewrite <- sort_perm.
      apply Permutation_sym. now apply replace_perm.
  - split; [split; assumption|]. split; [|exact Hperm].
    assert (Hhas' : RankTable.has_id i (RankTable.insert_sorted e' removed) = true).
    { apply has_id_true_iff. eapply Permutation_in.
      - apply Permutation_map, Permutation_sym, Hperm.
      - simpl. left. exact Hid. }
    destruct (has_id_find _ _ Hhas') as [x Hx].
    unfold RankTable.getById. rewrite Hx. f_equal.
    apply find_some in Hx. destruct Hx as [Hinx Hidx]. apply string_eqb_eq in Hidx.
    eapply Permutation_in in Hinx; [|exact Hperm].
    destruct Hinx as [<-|Hinx]; [reflexivity|].
    exfalso. apply has_id_false_iff in Hfresh. apply Hfresh.
    cbn. rewrite Hid, <- Hidx. now apply in_map.
Qed.

(** ** Picking opponents *)

Lemma store_get_error (i : string) (s : Store.t) (err : Error) :
  Store.get i s = Err err -> err = EntityNotFound.
Proof.
  unfold Store.get. destruct (find (Store.has_id i) (Store.rows s)); [discriminate|].
  now intros [= <-].
Qed.

Lemma pickRandomOpponents_result (rng : nat -> nat) (st : State) :
  fst (pickRandomOpponents rng st) = st /\
  snd (pickRandomOpponents rng st) =
    match RankTable.pickRandom rng (ranktable st) with
    | Ok (a, b) =>
        match Store.get (id a) (store st) with
        | Ok opponent1 =>
            match Store.get (id b) (store st) with
            | Ok opponent2 => Ok [opponent1; opponent2]
            | Err err => Err err
            end
        | Err err => Err err
        end
    | Err err => Err err
    end.
Proof.
  unfold pickRandomOpponents, bind, ask_ranktable, ask_store, ret.
  destruct (RankTable.pickRandom rng (ranktable st)) as [[a b]|err]; cbn; auto.
  destruct (Store.get (id a) (store st)); cbn; auto.
  destruct (Store.get (id b) (store st)); cbn; auto.
Qed.

(** C5.  With fewer than two entries in the index [pickRandomOpponents]
    fails with [InsufficientEntries]; with two or more it does not fail
    with that error. *)
Theorem pickRandomOpponents_needs_two (rng : nat -> nat) (st : State) :
  ((RankTable.getLength (ranktable st) < 2)%nat ->
   snd (pickRandomOpponents rng st) = Err InsufficientEntries) /\
  ((2 <= RankTable.getLength (ranktable st))%nat ->
   snd (pickRandomOpponents rng st) <> Err InsufficientEntries).
Proof.
  destruct (pickRandomOpponents_result rng st) as [_ ->].
  unfold RankTable.pickRandom, RankTable.getLength. split; intros Hlen.
  - now rewrite (proj2 (Nat.ltb_lt _ _) Hlen).
  - rewrite (proj2 (Nat.ltb_ge _ _) Hlen). cbv zeta.
    destruct (nth_error _ _) as [[a b]|]; [|discriminate].
    destruct (Store.get (id a) (store st)) eqn:Ha.
    + destruct (Store.get (id b) (store st)) eqn:Hb; [discriminate|].
      apply store_get_error in Hb. congruence.
    + apply store_get_error in Ha. congruence.
Qed.

(** ** The index mirrors the store *)

Lemma decimal_inj (a b : nat) : Store.decimal a = Store.decimal b -> a = b.
Proof.
  unfold Store.decimal. intros H.
  apply (f_equal NilEmpty.uint_of_string) in H.
  rewrite !NilEmpty.usu in H. injection H as H.
  apply (f_equal Nat.of_uint) in H.
  now rewrite !DecimalNat.Unsigned.of_to in H.
Qed.

Lemma filter_perm {A : Type} (f : A -> bool) (l l' : list A) :
  Permutation l l' -> Permutation (filter f l) (filter f l').
Proof.
  induction 1 as [|x l l' _ IH|x y l|l l' l'' _ IH1 _ IH2]; simpl.
  - constructor.
  - destruct (f x); [now constructor|assumption].
  - destruct (f x), (f y); try reflexivity. apply perm_swap.
  - etransitivity; eauto.
Qed.

Lemma insert_by_score_perm (e : LeagueEntity) (l : list LeagueEntity) :
  Permutation (e :: l) (Store.insert_by_score e l).
Proof.
  induction l as [|x rest IH]; simpl; [reflexivity|].
  destruct (score (fields x) <? score (fields e)); [reflexivity|].
  rewrite perm_swap. now constructor.
Qed.

Lemma find_by_score_desc_perm (s : Store.t) :
  Permutation (Store.rows s) (Store.find_by_score_desc s).
Proof.
  unfold Store.find_by_score_desc.
  induction (Store.rows s) as [|x rest IH]; simpl; [constructor|].
  rewrite <- insert_by_score_perm. now constructor.
Qed.

Lemma store_ok_fresh (s : Store.t) :
  store_ok s -> ~ In (Store.new_id s) (map (fun e => id (fields e)) (Store.rows s)).
Proof.
  intros [_ Hissued] Hin. apply in_map_iff in Hin. destruct Hin as [e [He Hin]].
  rewrite Forall_forall in Hissued. destruct (Hissued e Hin) as [k [Hk Hid]].
  unfold Store.new_id in He. rewrite Hid in He. apply decimal_inj in He. lia.
Qed.

Lemma store_ok_create (mk : string -> LeagueEntity) (s : Store.t) :
  (forall i, id (fields (mk i)) = i) ->
  store_ok s -> store_ok (fst (Store.create mk s)).
Proof.
  intros Hmk Hok. pose proof (store_ok_fresh s Hok) as Hfresh.
  destruct Hok as [Hnd Hissued]. unfold Store.create, store_ok. cbn.
  split.
  - rewrite map_app. cbn. rewrite Hmk.
    apply (Permutation_NoDup (l := Store.new_id s :: map (fun e => id (fields e)) (Store.rows s))).
    + apply Permutation_cons_append.
    + now constructor.
  - apply Forall_app. split.
    + eapply Forall_impl; [|exact Hissued].
      intros e [k [Hk Hid]]. exists k. split; [lia|assumption].
    + constructor; [|constructor]. exists (Store.created s). split; [lia|apply Hmk].
Qed.

Lemma store_ok_filter (f : LeagueEntity -> bool) (s : Store.t) :
  store_ok s ->
  store_ok {| Store.rows := filter f (Store.rows s); Store.created := Store.created s |}.
Proof.
  intros [Hnd Hissued]. unfold store_ok. cbn. split.
  - clear Hissued. induction (Store.rows s) as [|x rest IH]; simpl; [constructor|].
    inversion Hnd as [|? ? Hnotin Hnd']; subst.
    destruct (f x); simpl; auto. constructor; auto.
    intros Hin. apply Hnotin. apply in_map_iff in Hin. destruct Hin as [y [Hy Hin]].
    apply filter_In in Hin. apply in_map_iff. exists y. tauto.
  - rewrite Forall_forall in *. intros e He. apply filter_In in He. now apply Hissued.
Qed.

Lemma store_ok_update (i : string) (set : LeagueEntity -> LeagueEntity) (s : Store.t) :
  (forall x, id (fields (set x)) = id (fields x)) ->
  store_ok s -> store_ok (Store.update i set s).
Proof.
  intros Hset [Hnd Hissued]. unfold store_ok, Store.update. cbn.
  assert (Hids : map (fun e => id (fields e))
                     (map (fun e => if Store.has_id i e then set e else e) (Store.rows s)) =
                 map (fun e => id (fields e)) (Store.rows s)).
  { rewrite map_map. apply map_ext. intros e. destruct (Store.has_id i e); auto. }
  split; [now rewrite Hids|].
  rewrite Forall_forall in *. intros e He. apply in_map_iff in He.
  destruct He as [x [Hx Hin]]. destruct (Hissued x Hin) as [k [Hk Hid]].
  exists k. split; [assumption|]. subst e. destruct (Store.has_id i x); [rewrite Hset|]; auto.
Qed.

Lemma consistent_initial : consistent initial.
Proof. repeat split; cbn; constructor. Qed.

Lemma consistent_ids (st : State) :
  consistent st -> NoDup (map id (ranktable st)).
Proof.
  intros [[Hnd _] Hperm].
  eapply Permutation_NoDup; [apply Permutation_map; exact Hperm|].
  now rewrite map_map.
Qed.

Lemma consistent_has_id (st : State) (i : string) (entity : LeagueEntity) :
  consistent st -> Store.get i (store st) = Ok entity ->
  RankTable.has_id i (ranktable st) = true.
Proof.
  intros [_ Hperm] Hget. destruct (store_get_id _ _ _ Hget) as [Hid Hin].
  apply has_id_true_iff. rewrite <- Hid.
  apply in_map. eapply Permutation_in; [exact Hperm|]. now apply in_map.
Qed.

Lemma updateRank_consistent (st : State) (i : string) (winner : bool) :
  consistent st -> consistent (fst (updateRank i winner st)).
Proof.
  intros Hc. destruct (Store.get i (store st)) as [entity|err] eqn:Hget.
  - destruct (updateRank_state st i winner entity Hget) as [Hstore Hrt].
    pose proof (consistent_has_id st i entity Hc Hget) as Hhas.
    unfold RankTable.updateScore in Hrt. rewrite Hhas in Hrt.
    destruct Hc as [Hok Hperm]. split.
    + rewrite Hstore. now apply store_ok_update.
    + rewrite Hstore, Hrt. unfold Store.update, RankTable.getData in *. cbn.
      rewrite <- sort_perm, <- Hperm, !map_map.
      apply Permutation_refl'. apply map_ext. intros e.
      unfold Store.has_id. now destruct (string_eqb (id (fields e)) i).
  - unfold updateRank, bind, ask_store. now rewrite Hget.
Qed.

(** The two loops of [leaveLeague]. *)

Lemma filter_true {A : Type} (l : list A) : filter (fun _ => true) l = l.
Proof. induction l as [|x rest IH]; simpl; congruence. Qed.

Lemma filter_filter {A : Type} (f g : A -> bool) (l : list A) :
  filter f (filter g l) = filter (fun x => g x && f x) l.
Proof.
  induction l as [|x rest IH]; simpl; [reflexivity|].
  destruct (g x); simpl; [destruct (f x)|]; congruence.
Qed.

Lemma purge_store (subs : list LeagueEntity) (st : State) :
  for_each subs (fun e => set_store (Store.remove (id (fields e)))) st =
  ({| store := {| Store.rows := filter (fun e => negb (listed subs (id (fields e))))
                                       (Store.rows (store st));
                  Store.created := Store.created (store st) |};
      ranktable := ranktable st |}, Ok tt).
Proof.
  revert st. induction subs as [|x rest IH]; intros st.
  - cbn. rewrite filter_true. now destruct st as [[rows created] rt].
  - cbn [for_each]. unfold bind at 1. cbn [set_store]. rewrite IH. cbn.
    rewrite filter_filter. do 3 f_equal.
    apply filter_ext. intros e. unfold Store.has_id.
    rewrite (String.eqb_sym (id (fields x))). unfold string_eqb.
    now destruct (String.eqb (id (fields e)) (id (fields x))).
Qed.

Lemma purge_index (subs : list LeagueEntity) (st : State) :
  NoDup (map (fun e => id (fields e)) subs) ->
  (forall s, In s subs -> In (id (fields s)) (map id (ranktable st))) ->
  for_each subs (fun e => set_ranktable (RankTable.remove (id (fields e)))) st =
  ({| store := store st;
      ranktable := filter (fun e => negb (listed subs (id e))) (ranktable st) |}, Ok tt).
Proof.
  revert st. induction subs as [|x rest IH]; intros st Hnd Hin.
  - cbn. rewrite filter_true. now destruct st.
  - inversion Hnd as [|? ? Hnotin Hnd']; subst.
    cbn [for_each]. unfold bind at 1. unfold set_ranktable at 1, RankTable.remove.
    rewrite (proj2 (has_id_true_iff _ _) (Hin x (or_introl eq_refl))).
    rewrite IH; cbn [store ranktable]; auto.
    + rewrite filter_filter. do 2 f_equal.
      apply filter_ext. intros e. cbn.
      rewrite (String.eqb_sym (id (fields x))). unfold string_eqb.
      now destruct (String.eqb (id e) (id (fields x))).
    + intros s Hs. apply in_map_iff.
      pose proof (Hin s (or_intror Hs)) as Hins. apply in_map_iff in Hins.
      destruct Hins as [e [He Hine]]. exists e. split; [assumption|].
      apply filter_In. split; [assumption|].
      apply negb_true_iff, string_eqb_neq. intros Heq. apply Hnotin.
      rewrite <- Heq, He.
      now apply (in_map (fun e0 => id (fields e0))).
Qed.

Lemma authorize_cases (user : option string) :
  (exists u, user = Some u /\ u <> "" /\ forall st, authorize user st = (st, Ok u)) \/
  (forall st, authorize user st = (st, Err NotAuthorized)).
Proof.
  destruct user as [u|]; [|now right].
  unfold authorize. destruct (string_eqb u "") eqn:Hu; [now right|].
  left. exists u. apply string_eqb_neq in Hu. repeat split; auto.
Qed.

Lemma authorize_Some (u : string) (st : State) :
  u <> "" -> authorize (Some u) st = (st, Ok u).
Proof.
  intros Hu. unfold authorize. apply string_eqb_neq in Hu. now rewrite Hu.
Qed.

(** The reads of the service. *)

Lemma getUserSubmission_Some (u : string) (st : State) :
  u <> "" ->
  getUserSubmission (Some u) st =
  (st, Ok (hd_error (Store.find (owned_by u) (store st)))).
Proof.
  intros Hu. unfold getUserSubmission, bind. now rewrite authorize_Some.
Qed.

Lemma getLeagueSummary_Some (u : string) (st : State) :
  u <> "" ->
  let submission := hd_error (Store.find (owned_by u) (store st)) in
  getLeagueSummary (Some u) st =
  (st, Ok {| submission := submission;
             window := RankTable.slice (option_map (fun e => id (fields e)) submission) 9
                                       (ranktable st) |}).
Proof.
  intros Hu. unfold getLeagueSummary, getUserRankTable, bind.
  rewrite !authorize_Some by assumption.
  now rewrite getUserSubmission_Some.
Qed.

Lemma NoDup_map_eq {A B : Type} (f : A -> B) (l : list A) (a b : A) :
  NoDup (map f l) -> In a l -> In b l -> f a = f b -> a = b.
Proof.
  induction l as [|x rest IH]; simpl; intros Hnd Ha Hb Hab; [contradiction|].
  inversion Hnd as [|? ? Hnotin Hnd']; subst.
  destruct Ha as [->|Ha], Hb as [->|Hb]; auto.
  - exfalso. apply Hnotin. rewrite Hab. now apply in_map.
  - exfalso. apply Hnotin. rewrite <- Hab. now apply in_map.
Qed.

Lemma listed_owned (u : string) (s : Store.t) (e : LeagueEntity) :
  store_ok s -> In e (Store.rows s) ->
  listed (Store.find (owned_by u) s) (id (fields e)) = owned_by u e.
Proof.
  intros [Hnd _] Hin. unfold listed, Store.find.
  destruct (owned_by u e) eqn:Hown.
  - apply existsb_exists. exists e. split.
    + apply filter_In. auto.
    + now apply string_eqb_eq.
  - apply not_true_is_false. intros Hex. apply existsb_exists in Hex.
    destruct Hex as [x [Hx Hid]]. apply filter_In in Hx. destruct Hx as [Hx Hxown].
    apply string_eqb_eq in Hid.
    assert (x = e) by (eapply (NoDup_map_eq (fun e => id (fields e))); eauto).
    congruence.
Qed.

Lemma hd_error_filter_none {A : Type} (f : A -> bool) (l : list A) :
  hd_error (filter f (filter (fun x => negb (f x)) l)) = None.
Proof.
  rewrite filter_filter.
  induction l as [|x rest IH]; simpl; [reflexivity|].
  now destruct (f x).
Qed.

(** What [leaveLeague] does on a consistent state. *)
Lemma leaveLeague_effect (u : string) (st : State) :
  consistent st -> u <> "" ->
  leaveLeague (Some u) st =
  (purged u st,
   Ok {| submission := None;
         window := RankTable.slice None 9 (ranktable (purged u st)) |}).
Proof.
  intros [Hok Hperm] Hu. unfold leaveLeague, bind.
  rewrite authorize_Some by assumption. unfold ask_store at 1.
  rewrite purge_store.
  assert (Hstore : filter (fun e => negb (listed (Store.find (owned_by u) (store st))
                                                  (id (fields e))))
                          (Store.rows (store st)) =
                   filter (fun e => negb (owned_by u e)) (Store.rows (store st))).
  { apply filter_ext_in. intros e He. now rewrite listed_owned. }
  rewrite Hstore.
  rewrite purge_index; cbn [store ranktable].
  - assert (Hrt : filter (fun e => negb (listed (Store.find (owned_by u) (store st)) (id e)))
                         (ranktable st) =
                  filter (fun e => negb (string_eqb (ownerId e) u)) (ranktable st)).
    { apply filter_ext_in. intros e He.
      apply (Permutation_in _ (Permutation_sym Hperm)) in He.
      apply in_map_iff in He. destruct He as [r [<- Hr]].
      now rewrite listed_owned. }
    rewrite Hrt. fold (purged u st).
    rewrite getLeagueSummary_Some by assumption.
    cbn [purged store Store.rows]. unfold Store.find. cbn [Store.rows].
    now rewrite (hd_error_filter_none (owned_by u)).
  - pose proof (store_ok_filter (owned_by u) _ Hok) as [Hnd _]. exact Hnd.
  - intros s Hs. apply filter_In in Hs. destruct Hs as [Hs _].
    apply (in_map id). eapply Permutation_in; [exact Hperm|]. now apply in_map.
Qed.

Lemma leaveLeague_unauthorized (user : option string) (st : State) :
  (forall st, authorize user st = (st, Err NotAuthorized)) ->
  leaveLeague user st = (st, Err NotAuthorized).
Proof. intros Hno. unfold leaveLeague, bind. now rewrite Hno. Qed.

Lemma map_fields_filter (f : RankEntry -> bool) (l : list LeagueEntity) :
  map fields (filter (fun e => f (fields e)) l) = filter f (map fields l).
Proof.
  induction l as [|x rest IH]; simpl; [reflexivity|].
  destruct (f (fields x)); simpl; congruence.
Qed.

Lemma purged_consistent (u : string) (st : State) :
  consistent st -> consistent (purged u st).
Proof.
  intros [Hok Hperm]. split; cbn.
  - now apply store_ok_filter.
  - unfold RankTable.getData in *.
    rewrite <- (filter_perm _ _ _ Hperm).
    apply Permutation_refl'.
    exact (map_fields_filter (fun e => negb (string_eqb (ownerId e) u)) _).
Qed.

Lemma leaveLeague_consistent (user : option string) (st : State) :
  consistent st -> consistent (fst (leaveLeague user st)).
Proof.
  intros Hc. destruct (authorize_cases user) as [[u [-> [Hu _]]]|Hno].
  - rewrite leaveLeague_effect by assumption. now apply purged_consistent.
  - now rewrite leaveLeague_unauthorized.
Qed.

Lemma consistent_fresh (st : State) :
  consistent st -> RankTable.has_id (Store.new_id (store st)) (ranktable st) = false.
Proof.
  intros [Hok Hperm]. apply has_id_false_iff. intros Hin.
  apply (store_ok_fresh _ Hok).
  rewrite <- (map_map fields id).
  eapply Permutation_in; [apply Permutation_map, Permutation_sym, Hperm|exact Hin].
Qed.

Lemma joined_consistent (mk : string -> LeagueEntity) (st : State) :
  (forall i, id (fields (mk i)) = i) ->
  consistent st -> consistent (joined (mk (Store.new_id (store st))) st).
Proof.
  intros Hmk Hc. pose proof Hc as [Hok Hperm]. split.
  - exact (store_ok_create mk (store st) Hmk Hok).
  - cbn. unfold RankTable.getData in *. rewrite map_app. cbn.
    rewrite <- insert_sorted_perm, <- Hperm.
    apply Permutation_sym, Permutation_cons_append.
Qed.

Lemma hd_error_unowned (u : string) (e : LeagueEntity) (l : list LeagueEntity) :
  owned_by u e = true ->
  hd_error (filter (owned_by u) (filter (fun x => negb (owned_by u x)) l ++ [e])) = Some e.
Proof.
  intros He. rewrite filter_app, filter_filter. cbn. rewrite He.
  induction l as [|x rest IH]; simpl; [reflexivity|].
  now destruct (owned_by u x).
Qed.

(** What [joinLeague] does on a consistent state once the caller is
    authorized and owns the script. *)
Lemma joinLeague_effect (w : World) (u script_id : string) (now : Z)
      (script : Script.t) (st : State) :
  consistent st -> u <> "" ->
  getUserScript w script_id = Ok script ->
  Script.ownerId script = u ->
  let cur := hd_error (Store.find (owned_by u) (store st)) in
  let e := addDefaults now (submitted w script (startingScore script_id cur))
                       (Store.new_id (store st)) in
  let st' := joined e (purged u st) in
  joinLeague w (Some u) script_id now st =
  (st', Ok {| submission := Some e;
              window := RankTable.slice (Some (id (fields e))) 9 (ranktable st') |}).
Proof.
  intros Hc Hu Hscript Hown cur e st'.
  unfold joinLeague, bind. rewrite authorize_Some by assumption.
  rewrite Hscript, Hown.
  rewrite (proj2 (string_eqb_eq u u) eq_refl). cbn [negb].
  rewrite getUserSubmission_Some by assumption.
  rewrite leaveLeague_effect by assumption.
  unfold create, Store.create. cbn [fst snd].
  change (Store.new_id (store (purged u st))) with (Store.new_id (store st)).
  fold cur. fold e.
  unfold set_ranktable at 1, RankTable.add. cbn [store ranktable].
  pose proof (consistent_fresh _ (purged_consistent u st Hc)) as Hfresh.
  change (Store.new_id (store (purged u st))) with (id (fields e)) in Hfresh.
  rewrite Hfresh. fold (joined e (purged u st)). fold st'.
  rewrite getLeagueSummary_Some by assumption.
  assert (Hhd : hd_error (Store.find (owned_by u) (store st')) = Some e).
  { unfold st', Store.find. cbn [joined purged store Store.rows].
    apply hd_error_unowned.
    unfold owned_by. cbn. rewrite Hown. now apply string_eqb_eq. }
  rewrite Hhd. reflexivity.
Qed.

Lemma joinLeague_cases (w : World) (user : option string) (script_id : string)
      (now : Z) (st : State) :
  consistent st ->
  (exists err, joinLeague w user script_id now st = (st, Err err)) \/
  (exists u script,
     user = Some u /\ u <> "" /\
     getUserScript w script_id = Ok script /\ Script.ownerId script = u /\
     let cur := hd_error (Store.find (owned_by u) (store st)) in
     let e := addDefaults now (submitted w script (startingScore script_id cur))
                          (Store.new_id (store st)) in
     let st' := joined e (purged u st) in
     joinLeague w user script_id now st =
     (st', Ok {| submission := Some e;
                 window := RankTable.slice (Some (id (fields e))) 9 (ranktable st') |})).
Proof.
  intros Hc. destruct (authorize_cases user) as [[u [-> [Hu Hauth]]]|Hno].
  - destruct (getUserScript w script_id) as [script|err] eqn:Hscript.
    + destruct (string_eqb (Script.ownerId script) u) eqn:Hown.
      * apply string_eqb_eq in Hown. right. exists u, script.
        repeat split; auto. now apply joinLeague_effect.
      * left. exists NotAuthorized. unfold joinLeague, bind.
        now rewrite Hauth, Hscript, Hown.
    + left. exists err. unfold joinLeague, bind. now rewrite Hauth, Hscript.
  - left. exists NotAuthorized. unfold joinLeague, bind. now rewrite Hno.
Qed.

Lemma joinLeague_consistent (w : World) (user : option string) (script_id : string)
      (now : Z) (st : State) :
  consistent st -> consistent (fst (joinLeague w user script_id now st)).
Proof.
  intros Hc.
  destruct (joinLeague_cases w user script_id now st Hc)
    as [[err ->]|[u [script [_ [_ [_ [_ ->]]]]]]]; [assumption|].
  cbn [fst].
  change (Store.new_id (store st)) with (Store.new_id (store (purged u st))).
  apply (joined_consistent (addDefaults now _)); [reflexivity|].
  now apply purged_consistent.
Qed.

Lemma seeds_created (now : Z) (ps : list CreateParams) (st : State) :
  store_ok (store st) ->
  snd (for_each ps (fun p => create now p ;;; ret tt) st) = Ok tt /\
  store_ok (store (fst (for_each ps (fun p => create now p ;;; ret tt) st))).
Proof.
  revert st. induction ps as [|p rest IH]; intros st Hok; [now split|].
  cbn [for_each]. unfold bind at 1 3. unfold bind at 1 3.
  unfold create at 1 3, Store.create, ret at 1 3. cbn [fst snd].
  apply IH. cbn [store].
  exact (store_ok_create (addDefaults now p) (store st) (fun _ => eq_refl) Hok).
Qed.

Lemma appSeed_consistent (files : list (string * string)) (now : Z) (st : State) :
  store_ok (store st) -> consistent (fst (appSeed files now st)).
Proof.
  intros Hok. unfold appSeed, seedLeague.
  unfold bind at 1. unfold bind at 1. unfold ask_store at 1.
  match goal with
  | |- context [for_each ?ps ?f st] =>
      destruct (seeds_created now ps st Hok) as [Hres Hok'];
      destruct (for_each ps f st) as [st1 r] eqn:Hfor
  end.
  cbn [fst snd] in Hres, Hok'. subst r.
  unfold bind, ask_store, set_ranktable. cbn [fst store ranktable].
  split; cbn [store ranktable]; [assumption|].
  unfold RankTable.getData, RankTable.init.
  rewrite <- sort_perm. apply Permutation_map, find_by_score_desc_perm.
Qed.

Lemma perform_consistent (st : State) (a : Action) :
  consistent st -> consistent (perform st a).
Proof.
  intros Hc. destruct a as [files now|w user script_id now|user|i winner];
    unfold perform.
  - apply appSeed_consistent. apply Hc.
  - now apply joinLeague_consistent.
  - now apply leaveLeague_consistent.
  - now apply updateRank_consistent.
Qed.

Lemma run_consistent (actions : list Action) : consistent (run actions).
Proof.
  unfold run. generalize consistent_initial. generalize initial.
  induction actions as [|a rest IH]; intros st Hc; [assumption|].
  cbn. apply IH. now apply perform_consistent.
Qed.

(** ** Pairs for a match *)

Lemma pairs_In (a b : RankEntry) (l : list RankEntry) :
  In (a, b) (RankTable.pairs l) -> In a l /\ In b l.
Proof.
  induction l as [|x rest IH]; simpl; [tauto|].
  rewrite in_app_iff, in_map_iff. intros [[y [[= <- <-] Hy]]|Hin]; tauto.
Qed.

Lemma pickRandom_Ok (rng : nat -> nat) (l : RankTable.t) (a b : RankEntry) :
  RankTable.pickRandom rng l = Ok (a, b) ->
  (2 <= RankTable.getLength l)%nat /\ In a l /\ In b l /\
  id a <> id b /\ scriptId a <> scriptId b.
Proof.
  unfold RankTable.pickRandom, RankTable.getLength.
  destruct (Nat.ltb_spec (List.length l) 2); [discriminate|]. cbv zeta.
  destruct (nth_error _ _) as [p|] eqn:Hnth; [|discriminate].
  intros [= ->]. apply nth_error_In in Hnth.
  unfold RankTable.valid_pairs in Hnth. apply filter_In in Hnth.
  destruct Hnth as [Hin Hvalid]. apply pairs_In in Hin.
  unfold RankTable.valid_pair in Hvalid. cbn in Hvalid.
  apply andb_true_iff in Hvalid. destruct Hvalid as [Hid Hscript].
  apply negb_true_iff in Hid, Hscript.
  apply string_eqb_neq in Hid, Hscript. tauto.
Qed.

Lemma consistent_get (st : State) (a : RankEntry) (o : LeagueEntity) :
  consistent st -> In a (ranktable st) -> Store.get (id a) (store st) = Ok o ->
  fields o = a.
Proof.
  intros Hc Ha Hget. pose proof (consistent_ids st Hc) as Hnd.
  destruct Hc as [_ Hperm]. destruct (store_get_id _ _ _ Hget) as [Hid Hin].
  apply (NoDup_map_eq id (ranktable st)); auto.
  eapply Permutation_in; [exact Hperm|]. now apply in_map.
Qed.

(** C6.  In every state the service reaches, a successful
    [pickRandomOpponents] returns exactly two entries, both of the index,
    whose [id]s differ and whose [scriptId]s differ; the index then holds at
    least two entries. *)
Theorem pickRandomOpponents_distinct (actions : list Action) (rng : nat -> nat)
        (opponents : list LeagueEntity) :
  let st := run actions in
  snd (pickRandomOpponents rng st) = Ok opponents ->
  (2 <= RankTable.getLength (ranktable st))%nat /\
  exists opponent1 opponent2,
    opponents = [opponent1; opponent2] /\
    In (fields opponent1) (ranktable st) /\
    In (fields opponent2) (ranktable st) /\
    id (fields opponent1) <> id (fields opponent2) /\
    scriptId (fields opponent1) <> scriptId (fields opponent2).
Proof.
  intros st. pose proof (run_consistent actions) as Hc. fold st in Hc.
  destruct (pickRandomOpponents_result rng st) as [_ ->].
  destruct (RankTable.pickRandom rng (ranktable st)) as [[a b]|] eqn:Hpick; [|discriminate].
  destruct (pickRandom_Ok _ _ _ _ Hpick) as [Hlen [Ha [Hb [Hid Hscript]]]].
  destruct (Store.get (id a) (store st)) as [o1|] eqn:H1; [|discriminate].
  destruct (Store.get (id b) (store st)) as [o2|] eqn:H2; [|discriminate].
  intros [= <-]. split; [assumption|]. exists o1, o2.
  rewrite (consistent_get st a o1 Hc Ha H1), (consistent_get st b o2 Hc Hb H2).
  repeat split; assumption.
Qed.

(** ** Joining the league *)

Lemma filter_owned_purged (u : string) (e : LeagueEntity) (l : list LeagueEntity) :
  owned_by u e = true ->
  filter (owned_by u) (filter (fun x => negb (owned_by u x)) l ++ [e]) = [e].
Proof.
  intros He. rewrite filter_app, filter_filter. cbn. rewrite He.
  induction l as [|x rest IH]; simpl; [reflexivity|].
  now destruct (owned_by u x).
Qed.

Lemma filter_owner_purged (u : string) (l : list RankEntry) :
  filter (fun e => string_eqb (ownerId e) u)
         (filter (fun e => negb (string_eqb (ownerId e) u)) l) = [].
Proof.
  rewrite filter_filter. induction l as [|x rest IH]; simpl; [reflexivity|].
  now destruct (string_eqb (ownerId x) u).
Qed.

(** C9.  In every state the service reaches, once [joinLeague] succeeds for
    a user, the store holds exactly one entry owned by that user and so does
    the index. *)
Theorem joinLeague_one_entry (actions : list Action) (w : World)
        (user : option string) (script_id : string) (now : Z) (summary : Summary) :
  let st := run actions in
  let st' := fst (joinLeague w user script_id now st) in
  snd (joinLeague w user script_id now st) = Ok summary ->
  exists u,
    user = Some u /\
    List.length (filter (owned_by u) (Store.rows (store st'))) = 1%nat /\
    List.length (filter (fun e => string_eqb (ownerId e) u) (ranktable st')) = 1%nat.
Proof.
  intros st st'. pose proof (run_consistent actions) as Hc. fold st in Hc.
  unfold st'.
  destruct (joinLeague_cases w user script_id now st Hc)
    as [[err ->]|[u [script [-> [Hu [Hscript [Hown ->]]]]]]]; [discriminate|].
  intros _. exists u. split; [reflexivity|]. cbn [fst].
  set (e := addDefaults now _ _).
  assert (He : owned_by u e = true).
  { unfold owned_by. cbn. rewrite Hown. now apply string_eqb_eq. }
  split.
  - cbn [joined purged store Store.rows]. now rewrite filter_owned_purged.
  - cbn [joined purged ranktable].
    erewrite Permutation_length;
      [|apply filter_perm, Permutation_sym, insert_sorted_perm].
    cbn [filter]. unfold owned_by in He. rewrite He.
    now rewrite filter_owner_purged.
Qed.

Lemma store_get_created (e : LeagueEntity) (l : list LeagueEntity) (n : nat) :
  ~ In (id (fields e)) (map (fun x => id (fields x)) l) ->
  Store.get (id (fields e)) {| Store.rows := l ++ [e]; Store.created := n |} = Ok e.
Proof.
  intros Hfresh. unfold Store.get. cbn [Store.rows].
  induction l as [|x rest IH]; cbn.
  - unfold Store.has_id. now rewrite (proj2 (string_eqb_eq _ _) eq_refl).
  - cbn in Hfresh. unfold Store.has_id at 1.
    destruct (string_eqb (id (fields x)) (id (fields e))) eqn:Hx.
    + apply string_eqb_eq in Hx. tauto.
    + apply IH. tauto.
Qed.

Lemma getById_inserted (x : RankEntry) (l : RankTable.t) :
  RankTable.has_id (id x) l = false ->
  RankTable.getById (id x) (RankTable.insert_sorted x l) = Ok x.
Proof.
  unfold RankTable.getById, RankTable.has_id.
  induction l as [|y rest IH]; cbn; intros Hfresh.
  - now rewrite (proj2 (string_eqb_eq _ _) eq_refl).
  - apply orb_false_iff in Hfresh. destruct Hfresh as [Hy Hrest].
    destruct (RankTable.entry_leb x y); cbn.
    + now rewrite (proj2 (string_eqb_eq _ _) eq_refl).
    + rewrite Hy. now apply IH.
Qed.

(** C10.  In every state the service reaches, a successful [joinLeague]
    creates an entry that the store did not hold, owned by the caller and
    returned as the caller's submission.  Its score is the score of the
    caller's current submission when that submission has the requested
    [scriptId], and 0 when it has another [scriptId] or when the caller has
    no submission. *)
Theorem joinLeague_starting_score (actions : list Action) (w : World)
        (user : option string) (script_id : string) (now : Z) (summary : Summary) :
  let st := run actions in
  let st' := fst (joinLeague w user script_id now st) in
  snd (joinLeague w user script_id now st) = Ok summary ->
  exists u entity,
    user = Some u /\
    submission summary = Some entity /\
    ownerId (fields entity) = u /\
    stored (id (fields entity)) st = None /\
    stored (id (fields entity)) st' = Some (fields entity) /\
    indexed (id (fields entity)) st' = Some (fields entity) /\
    let current := hd_error (Store.find (owned_by u) (store st)) in
    snd (getUserSubmission user st) = Ok current /\
    (forall cur, current = Some cur -> scriptId (fields cur) = script_id ->
                 score (fields entity) = score (fields cur)) /\
    (forall cur, current = Some cur -> scriptId (fields cur) <> script_id ->
                 score (fields entity) = 0) /\
    (current = None -> score (fields entity) = 0).
Proof.
  intros st st'. pose proof (run_consistent actions) as Hc. fold st in Hc.
  unfold st'.
  destruct (joinLeague_cases w user script_id now st Hc)
    as [[err ->]|[u [script [-> [Hu [Hscript [Hown ->]]]]]]]; [discriminate|].
  intros [= <-]. cbn [fst submission].
  set (current := hd_error (Store.find (owned_by u) (store st))).
  set (e := addDefaults now _ _).
  assert (Hfresh : ~ In (id (fields e)) (map (fun x => id (fields x)) (Store.rows (store st)))).
  { apply store_ok_fresh, Hc. }
  exists u, e. split; [reflexivity|]. split; [reflexivity|]. split; [exact Hown|].
  split; [|split; [|split; [|split]]].
  - unfold stored, Store.get.
    destruct (find _ _) as [x|] eqn:Hx; [|reflexivity].
    apply find_some in Hx. destruct Hx as [Hin Hid]. apply string_eqb_eq in Hid.
    exfalso. apply Hfresh. rewrite <- Hid. now apply (in_map (fun x => id (fields x))).
  - unfold stored. cbn [joined purged store Store.rows Store.created].
    rewrite store_get_created; [reflexivity|].
    intros Hin. apply Hfresh. apply in_map_iff in Hin. destruct Hin as [x [Hx Hin]].
    apply filter_In in Hin. apply in_map_iff. exists x. tauto.
  - unfold indexed. cbn [joined purged ranktable].
    rewrite getById_inserted; [reflexivity|].
    exact (consistent_fresh _ (purged_consistent u st Hc)).
  - now rewrite getUserSubmission_Some.
  - cbn. fold current. unfold startingScore.
    repeat split.
    + intros cur -> Hsame. now rewrite (proj2 (string_eqb_eq _ _) (eq_sym Hsame)).
    + intros cur -> Hother.
      assert (Hneq : script_id <> scriptId (fields cur)) by congruence.
      now rewrite (proj2 (string_eqb_neq _ _) Hneq).
    + now intros ->.
Qed.

(** ** The table of the service is sorted *)

Lemma perform_sorted (st : State) (a : Action) :
  consistent st -> sorted (ranktable st) -> sorted (ranktable (perform st a)).
Proof.
  intros Hc Hs. destruct a as [files now|w user script_id now|user|i winner];
    unfold perform.
  - unfold appSeed, seedLeague.
    unfold bind at 1. unfold bind at 1. unfold ask_store at 1.
    match goal with
    | |- context [for_each ?ps ?f st] =>
        destruct (seeds_created now ps st (proj1 Hc)) as [Hres _];
        destruct (for_each ps f st) as [st1 r] eqn:Hfor
    end.
    cbn [snd] in Hres. subst r. cbn. apply sort_sorted.
  - destruct (joinLeague_cases w user script_id now st Hc)
      as [[err ->]|[u [script [_ [_ [_ [_ ->]]]]]]]; [assumption|].
    cbn. now apply insert_sorted_sorted, filter_sorted.
  - destruct (authorize_cases user) as [[u [-> [Hu _]]]|Hno].
    + rewrite leaveLeague_effect by assumption. cbn. now apply filter_sorted.
    + now rewrite leaveLeague_unauthorized.
  - destruct (Store.get i (store st)) as [entity|err] eqn:Hget.
    + destruct (updateRank_state st i winner entity Hget) as [_ ->].
      unfold RankTable.updateScore. destruct (RankTable.has_id i (ranktable st)); auto.
      apply sort_sorted.
    + unfold updateRank, bind, ask_store. now rewrite Hget.
Qed.

Lemma service_sorted (actions : list Action) : sorted (ranktable (run actions)).
Proof.
  unfold run.
  assert (H : consistent initial /\ sorted (ranktable initial))
    by (split; [apply consistent_initial|constructor]).
  revert H. generalize initial.
  induction actions as [|a rest IH]; intros st [Hc Hs]; [assumption|].
  cbn. apply IH. split; [now apply perform_consistent|now apply perform_sorted].
Qed.

Lemma listRankTable_sorted (actions : list Action) (p ps : option nat) :
  sorted (rows (listRankTable p ps (run actions))).
Proof.
  cbn. rewrite rows_at_firstn_skipn.
  apply firstn_sorted, skipn_sorted, service_sorted.
Qed.

(** ** The properties at work on the sample league *)

(** C2 on the league of the unit test: the one entry starts at 0 and goes
    through 400, 784 and 753. *)
Lemma updateRank_score_witness :
  exists entity,
    Store.get "0" (store (run [monica_joins])) = Ok entity /\
    score (fields entity) = 0 /\
    let st1 := fst (updateRank "0" true (run [monica_joins])) in
    let st2 := fst (updateRank "0" true st1) in
    let st3 := fst (updateRank "0" false st2) in
    option_map score (stored "0" st1) = Some 400 /\
    option_map score (stored "0" st2) = Some 784 /\
    option_map score (stored "0" st3) = Some 753.
Proof.
  eexists. split; [vm_compute; reflexivity|]. split; [reflexivity|].
  apply (proj2 (updateRank_score (run [monica_joins]) "0" _ eq_refl
                  ltac:(vm_compute; split; discriminate))).
  reflexivity.
Defined.

(** C7 on the same league: a first win. *)
Lemma updateRank_fights_witness :
  exists e',
    stored "0" (fst (updateRank "0" true (run [monica_joins]))) = Some e' /\
    fights_total e' = 1 /\ fights_win e' = 1 /\ fights_lose e' = 0.
Proof.
  destruct (updateRank_fights (run [monica_joins]) "0" true
              (addDefaults 1000 (submitted sample_world ownScript 0) "0")
              eq_refl eq_refl)
    as [e' [Hstored [Htotal [Hwin [Hlose _]]]]].
  exists e'. repeat split; assumption.
Defined.

(** C3 on twenty entries, a window of nine and the anchor at rank 15. *)
Lemma slice_window_witness :
  let l := sample_table 20 in
  (9 < List.length l)%nat /\
  RankTable.rank_of "5" l = Some 15%nat /\
  List.length (RankTable.slice (Some "5") 9 l) = 9%nat /\
  exists e, In e (RankTable.slice (Some "5") 9 l) /\ id e = "5".
Proof.
  intros l.
  assert (Hn : (9 < List.length l)%nat) by (vm_compute; lia).
  assert (Hr : RankTable.rank_of "5" l = Some 15%nat) by reflexivity.
  split; [exact Hn|]. split; [exact Hr|].
  destruct (proj2 (proj2 (slice_window [RankTable.OpInit (map (sample_entry 0) (seq 0 20))] 9))
              "5" 15%nat Hn ltac:(lia) Hr)
    as [start [_ [Hlen [_ [_ [_ [[e [_ [Hid Hnth]]] _]]]]]]].
  split; [exact Hlen|].
  exists e. split; [eapply nth_error_In; exact Hnth|exact Hid].
Defined.

(** C5 on the empty league and on a league of two. *)
Lemma pickRandomOpponents_needs_two_witness :
  snd (pickRandomOpponents (fun _ => O) initial) = Err InsufficientEntries /\
  snd (pickRandomOpponents (fun _ => O) (run [monica_joins; another_joins]))
    <> Err InsufficientEntries.
Proof.
  split.
  - apply (proj1 (pickRandomOpponents_needs_two (fun _ => O) initial)).
    vm_compute. lia.
  - apply (proj2 (pickRandomOpponents_needs_two (fun _ => O)
                    (run [monica_joins; another_joins]))).
    vm_compute. lia.
Defined.

(** C6 on the league of two. *)
Lemma pickRandomOpponents_distinct_witness :
  exists opponent1 opponent2,
    snd (pickRandomOpponents (fun _ => O) (run [monica_joins; another_joins])) =
      Ok [opponent1; opponent2] /\
    id (fields opponent1) <> id (fields opponent2) /\
    scriptId (fields opponent1) <> scriptId (fields opponent2).
Proof.
  destruct (pickRandomOpponents_distinct [monica_joins; another_joins] (fun _ => O)
              _ eq_refl)
    as [_ [o1 [o2 [Heq [_ [_ [Hid Hscript]]]]]]].
  exists o1, o2. split; [|split; assumption].
  injection Heq as <- <-. reflexivity.
Defined.

(** C8 on a table of three: the middle entry is given the top score. *)
Lemma updateScore_is_remove_add_witness :
  exists removed updated,
    RankTable.remove "1" (sample_table 3) = Ok removed /\
    RankTable.add (sample_entry 500 1) removed = Ok updated /\
    RankTable.updateScore "1" 500 0 0 0 (sample_table 3) = Ok updated /\
    hd_error updated = Some (sample_entry 500 1).
Proof.
  assert (Hstate : index_state (sample_table 3)).
  { split; [apply run_sorted|].
    vm_compute. repeat constructor; cbn; intuition discriminate. }
  destruct (updateScore_is_remove_add (sample_table 3) "1" 500 0 0 0
              (sample_entry 0 1) Hstate eq_refl)
    as [removed [updated [Hremove [Hadd [Hupdate _]]]]].
  exists removed, updated. repeat split; try assumption.
  vm_compute in Hupdate. injection Hupdate as <-. reflexivity.
Defined.

(** C9 and C10 on a user who joins, wins a fight and joins again with the
    same script. *)
Lemma joinLeague_one_entry_witness :
  let st' := fst (joinLeague sample_world (Some "92864") "152674" 3000
                             (run [monica_joins; UpdateRank "0" true])) in
  List.length (filter (owned_by "92864") (Store.rows (store st'))) = 1%nat /\
  List.length (filter (fun e => string_eqb (ownerId e) "92864") (ranktable st')) = 1%nat.
Proof.
  destruct (joinLeague_one_entry [monica_joins; UpdateRank "0" true] sample_world
              (Some "92864") "152674" 3000 _ eq_refl)
    as [u [Hu [Hstore Hindex]]].
  injection Hu as <-. split; assumption.
Defined.

Lemma joinLeague_starting_score_witness :
  exists entity,
    submission_of (joinLeague sample_world (Some "92864") "152674" 3000
                              (run [monica_joins; UpdateRank "0" true])) = Some entity /\
    stored "0" (run [monica_joins; UpdateRank "0" true]) <> None /\
    id (fields entity) = "1" /\
    score (fields entity) = 400.
Proof.
  destruct (joinLeague_starting_score [monica_joins; UpdateRank "0" true] sample_world
              (Some "92864") "152674" 3000 _ eq_refl)
    as [u [entity [Hu [Hsub [_ [_ [_ [_ [_ [Hsame _]]]]]]]]]].
  injection Hu as <-.
  exists entity. split; [exact Hsub|]. split; [discriminate|].
  split.
  - cbn in Hsub. now injection Hsub as <-.
  - rewrite (Hsame _ eq_refl eq_refl). reflexivity.
Defined.

(** ** Further properties of [updateRank] *)

(** X1.  [updateRank] on an identifier the store does not hold fails with
    the store's [EntityNotFound] and leaves store and index as they are. *)
Theorem updateRank_unknown_id (st : State) (i : string) (winner : bool) :
  stored i st = None ->
  updateRank i winner st = (st, Err EntityNotFound).
Proof.
  unfold stored. destruct (Store.get i (store st)) as [e|err] eqn:Hget; [discriminate|].
  intros _. apply store_get_error in Hget as Herr. subst err.
  unfold updateRank, bind, ask_store. now rewrite Hget.
Qed.

Lemma updateRank_stored (st : State) (i : string) (winner : bool)
      (entity : LeagueEntity) :
  Store.get i (store st) = Ok entity ->
  exists e',
    stored i (fst (updateRank i winner st)) = Some e' /\
    score e' = (if winner then (48 * score (fields entity) + 20025) / 50
                else (48 * score (fields entity) + 25) / 50).
Proof.
  intros Hget. destruct (updateRank_effect st i winner entity Hget) as [Hs _].
  eexists. split; [unfold stored; rewrite Hs; reflexivity|].
  cbn [score fields set_rank RankTable.with_score]. apply newScore_closed.
Qed.

(** X2.  A score between 0 and 10000 stays between 0 and 10000; a win never
    lowers it and a loss never raises it. *)
Theorem updateRank_score_range (st : State) (i : string) (winner : bool)
        (entity : LeagueEntity) :
  Store.get i (store st) = Ok entity ->
  0 <= score (fields entity) <= 10000 ->
  exists e',
    stored i (fst (updateRank i winner st)) = Some e' /\
    0 <= score e' <= 10000 /\
    (if winner then score (fields entity) <= score e'
     else score e' <= score (fields entity)).
Proof.
  intros Hget Hrange.
  destruct (updateRank_stored st i winner entity Hget) as [e' [Hs Hscore]].
  exists e'. split; [exact Hs|]. rewrite Hscore. destruct winner.
  - pose proof (Z.div_mod (48 * score (fields entity) + 20025) 50 ltac:(lia)).
    pose proof (Z.mod_pos_bound (48 * score (fields entity) + 20025) 50 ltac:(lia)).
    lia.
  - pose proof (Z.div_mod (48 * score (fields entity) + 25) 50 ltac:(lia)).
    pose proof (Z.mod_pos_bound (48 * score (fields entity) + 25) 50 ltac:(lia)).
    lia.
Qed.

(** X3.  A win raises the score exactly when the score is at most 9987, and
    a loss lowers it exactly when the score is at least 13: scores from 9988
    up to 10000 are not moved by a win, scores from 0 to 12 not by a loss. *)
Theorem updateRank_score_stalls (st : State) (i : string) (entity : LeagueEntity) :
  Store.get i (store st) = Ok entity ->
  let s := score (fields entity) in
  exists won lost,
    option_map score (stored i (fst (updateRank i true st))) = Some won /\
    option_map score (stored i (fst (updateRank i false st))) = Some lost /\
    (s < won <-> s <= 9987) /\
    (lost < s <-> 13 <= s) /\
    (9988 <= s <= 10000 -> won = s) /\
    (0 <= s <= 12 -> lost = s).
Proof.
  intros Hget s.
  destruct (updateRank_stored st i true entity Hget) as [w [Hw Hws]].
  destruct (updateRank_stored st i false entity Hget) as [l [Hl Hls]].
  rewrite Hw, Hl. cbn [option_map]. fold s in Hws, Hls.
  exists (score w), (score l). split; [reflexivity|]. split; [reflexivity|].
  rewrite Hws, Hls.
  pose proof (Z.div_mod (48 * s + 20025) 50 ltac:(lia)).
  pose proof (Z.mod_pos_bound (48 * s + 20025) 50 ltac:(lia)).
  pose proof (Z.div_mod (48 * s + 25) 50 ltac:(lia)).
  pose proof (Z.mod_pos_bound (48 * s + 25) 50 ltac:(lia)).
  repeat split; lia.
Qed.

(** The doubles of lines 193-198 and the exact formula: the same new score
    for the scores of the league, not for very large ones. *)

Lemma scores_agree_in_range :
  forallb (fun n => scores_agree true (Z.of_nat n) && scores_agree false (Z.of_nat n))
          (seq 0 (Z.to_nat 10001)) = true.
Proof. vm_compute. reflexivity. Qed.

Lemma newScore_double_exact (winner : bool) (s : Z) :
  0 <= s <= 10000 ->
  Math_round_double (newScore_double winner s) = Some (Math_round (newScore winner s)).
Proof.
  intros Hs. pose proof scores_agree_in_range as Hall.
  rewrite forallb_forall in Hall.
  specialize (Hall (Z.to_nat s)). rewrite Z2Nat.id in Hall by lia.
  assert (Hin : In (Z.to_nat s) (seq 0 (Z.to_nat 10001))) by (apply in_seq; lia).
  apply Hall in Hin. apply andb_true_iff in Hin. destruct Hin as [Hwin Hlose].
  assert (Hagree : scores_agree winner s = true) by (destruct winner; assumption).
  unfold scores_agree in Hagree.
  destruct (Math_round_double (newScore_double winner s)) as [z|]; [|discriminate].
  apply Z.eqb_eq in Hagree. now subst z.
Qed.

Lemma newScore_double_large :
  Math_round_double (newScore_double true (2 ^ 60)) = Some 1106804644422573440 /\
  Math_round (newScore true (2 ^ 60)) = 1106804644422573497.
Proof. split; vm_compute; reflexivity. Qed.

(** ** The index answers as the store does *)

Lemma consistent_lookup (st : State) (i : string) :
  consistent st -> stored i st = indexed i st.
Proof.
  intros Hc. pose proof (consistent_ids st Hc) as Hnd. destruct Hc as [_ Hperm].
  unfold stored, indexed, Store.get, RankTable.getById, RankTable.getData in *.
  destruct (find (Store.has_id i) (Store.rows (store st))) as [r|] eqn:Hr.
  - apply find_some in Hr. destruct Hr as [Hin Hid]. apply string_eqb_eq in Hid.
    assert (Hin' : In (fields r) (ranktable st)).
    { eapply Permutation_in; [exact Hperm|]. now apply in_map. }
    destruct (find (fun e => string_eqb (id e) i) (ranktable st)) as [x|] eqn:Hx.
    + apply find_some in Hx. destruct Hx as [Hinx Hidx]. apply string_eqb_eq in Hidx.
      f_equal. apply (NoDup_map_eq id (ranktable st)); auto. congruence.
    + eapply find_none in Hx; [|exact Hin'].
      apply string_eqb_neq in Hx. congruence.
  - destruct (find (fun e => string_eqb (id e) i) (ranktable st)) as [x|] eqn:Hx;
      [|reflexivity].
    apply find_some in Hx. destruct Hx as [Hinx Hidx].
    apply (Permutation_in _ (Permutation_sym Hperm)) in Hinx.
    apply in_map_iff in Hinx. destruct Hinx as [r [<- Hinr]].
    eapply find_none in Hr; [|exact Hinr]. unfold Store.has_id in Hr. congruence.
Qed.

(** The same up to the fields [updateRank] writes, whenever its write to the
    store is carried out. *)

Lemma unscored_id (e : RankEntry) : id (unscored e) = id e.
Proof. reflexivity. Qed.

Lemma unscored_ownerId (e : RankEntry) : ownerId (unscored e) = ownerId e.
Proof. reflexivity. Qed.

Lemma unscored_with_score (s ft fw fl : Z) (e : RankEntry) :
  unscored (RankTable.with_score s ft fw fl e) = unscored e.
Proof. reflexivity. Qed.

Lemma consistent_mirrors (st : State) : consistent st -> mirrors st.
Proof.
  intros [Hok Hperm]. split; [assumption|].
  rewrite <- (map_map fields unscored). now apply Permutation_map.
Qed.

Lemma mirrors_in_index (st : State) (e : RankEntry) :
  mirrors st -> In e (ranktable st) ->
  exists r, In r (Store.rows (store st)) /\ unscored (fields r) = unscored e.
Proof.
  intros [_ Hperm] Hin. apply (in_map unscored) in Hin.
  apply (Permutation_in _ (Permutation_sym Hperm)) in Hin.
  apply in_map_iff in Hin. destruct Hin as [r [Hr Hin]]. now exists r.
Qed.

Lemma mirrors_in_store (st : State) (r : LeagueEntity) :
  mirrors st -> In r (Store.rows (store st)) ->
  exists e, In e (ranktable st) /\ unscored e = unscored (fields r).
Proof.
  intros [_ Hperm] Hin.
  apply (in_map (fun x => unscored (fields x))) in Hin.
  apply (Permutation_in _ Hperm) in Hin.
  apply in_map_iff in Hin. destruct Hin as [e [He Hin]]. now exists e.
Qed.

Lemma mirrors_id_lists (st : State) :
  mirrors st ->
  Permutation (map (fun e => id (fields e)) (Store.rows (store st)))
              (map id (ranktable st)).
Proof.
  intros [_ Hperm]. apply (Permutation_map id) in Hperm.
  rewrite !map_map in Hperm. exact Hperm.
Qed.

Lemma mirrors_ids (st : State) : mirrors st -> NoDup (map id (ranktable st)).
Proof.
  intros Hm. eapply Permutation_NoDup; [exact (mirrors_id_lists st Hm)|].
  apply Hm.
Qed.

Lemma mirrors_lookup (st : State) (i : string) :
  mirrors st ->
  option_map unscored (indexed i st) = option_map unscored (stored i st).
Proof.
  intros Hm. pose proof (mirrors_ids st Hm) as Hnd.
  unfold stored, indexed, Store.get, RankTable.getById, RankTable.getData.
  destruct (find (Store.has_id i) (Store.rows (store st))) as [r|] eqn:Hr.
  - apply find_some in Hr. destruct Hr as [Hin Hid]. apply string_eqb_eq in Hid.
    destruct (mirrors_in_store st r Hm Hin) as [e [Hine He]].
    destruct (find (fun e => string_eqb (id e) i) (ranktable st)) as [x|] eqn:Hx.
    + apply find_some in Hx. destruct Hx as [Hinx Hidx]. apply string_eqb_eq in Hidx.
      assert (Hxe : x = e).
      { apply (NoDup_map_eq id (ranktable st)); auto.
        rewrite Hidx, <- Hid, <- (unscored_id e), He. reflexivity. }
      subst x. cbn. now rewrite He.
    + eapply find_none in Hx; [|exact Hine].
      apply string_eqb_neq in Hx. exfalso. apply Hx.
      rewrite <- Hid, <- (unscored_id e), He. reflexivity.
  - destruct (find (fun e => string_eqb (id e) i) (ranktable st)) as [x|] eqn:Hx;
      [|reflexivity].
    apply find_some in Hx. destruct Hx as [Hinx Hidx]. apply string_eqb_eq in Hidx.
    destruct (mirrors_in_index st x Hm Hinx) as [r [Hinr Hrx]].
    eapply find_none in Hr; [|exact Hinr]. unfold Store.has_id in Hr.
    apply string_eqb_neq in Hr. exfalso. apply Hr.
    rewrite <- Hidx, <- (unscored_id x), <- Hrx. reflexivity.
Qed.

Lemma map_unscored_filter (f : RankEntry -> bool) (l : list RankEntry) :
  (forall e, f (unscored e) = f e) ->
  map unscored (filter f l) = filter f (map unscored l).
Proof.
  intros Hf. induction l as [|x rest IH]; simpl; [reflexivity|].
  rewrite Hf. destruct (f x); simpl; congruence.
Qed.

Lemma map_unscored_unowned (u : string) (l : list LeagueEntity) :
  map (fun e => unscored (fields e)) (filter (fun e => negb (owned_by u e)) l) =
  filter (fun e => negb (string_eqb (ownerId e) u))
         (map (fun e => unscored (fields e)) l).
Proof.
  induction l as [|x rest IH]; cbn [map filter]; [reflexivity|].
  unfold owned_by at 1.
  change (ownerId (unscored (fields x))) with (ownerId (fields x)).
  destruct (string_eqb (ownerId (fields x)) u); cbn [negb map]; congruence.
Qed.

Lemma purged_mirrors (u : string) (st : State) :
  mirrors st -> mirrors (purged u st).
Proof.
  intros [Hok Hperm]. split; cbn [purged store ranktable Store.rows].
  - now apply store_ok_filter.
  - unfold RankTable.getData in *.
    rewrite (map_unscored_filter (fun e => negb (string_eqb (ownerId e) u)))
      by reflexivity.
    rewrite <- (filter_perm _ _ _ Hperm).
    apply Permutation_refl'. apply map_unscored_unowned.
Qed.

Lemma leaveLeague_state (u : string) (st : State) :
  mirrors st -> u <> "" -> fst (leaveLeague (Some u) st) = purged u st.
Proof.
  intros Hm Hu. pose proof Hm as [Hok Hperm]. unfold leaveLeague, bind.
  rewrite authorize_Some by assumption. unfold ask_store at 1.
  rewrite purge_store.
  assert (Hstore : filter (fun e => negb (listed (Store.find (owned_by u) (store st))
                                                  (id (fields e))))
                          (Store.rows (store st)) =
                   filter (fun e => negb (owned_by u e)) (Store.rows (store st))).
  { apply filter_ext_in. intros e He. now rewrite listed_owned. }
  rewrite Hstore.
  rewrite purge_index; cbn [store ranktable].
  - assert (Hrt : filter (fun e => negb (listed (Store.find (owned_by u) (store st)) (id e)))
                         (ranktable st) =
                  filter (fun e => negb (string_eqb (ownerId e) u)) (ranktable st)).
    { apply filter_ext_in. intros e He.
      destruct (mirrors_in_index st e Hm He) as [r [Hr Hre]].
      rewrite <- (unscored_id e), <- (unscored_ownerId e), <- Hre,
        unscored_id, unscored_ownerId.
      now rewrite listed_owned. }
    rewrite Hrt. fold (purged u st).
    now rewrite getLeagueSummary_Some by assumption.
  - pose proof (store_ok_filter (owned_by u) _ Hok) as [Hnd _]. exact Hnd.
  - intros s Hs. apply filter_In in Hs. destruct Hs as [Hs _].
    eapply Permutation_in; [exact (mirrors_id_lists st Hm)|].
    now apply (in_map (fun e => id (fields e))).
Qed.

Lemma leaveLeague_mirrors (user : option string) (st : State) :
  mirrors st -> mirrors (fst (leaveLeague user st)).
Proof.
  intros Hm. destruct (authorize_cases user) as [[u [-> [Hu _]]]|Hno].
  - rewrite leaveLeague_state by assumption. now apply purged_mirrors.
  - now rewrite leaveLeague_unauthorized.
Qed.

Lemma mirrors_fresh (st : State) :
  mirrors st -> RankTable.has_id (Store.new_id (store st)) (ranktable st) = false.
Proof.
  intros Hm. apply has_id_false_iff. intros Hin.
  apply (store_ok_fresh _ (proj1 Hm)).
  eapply Permutation_in; [apply Permutation_sym, (mirrors_id_lists st Hm)|exact Hin].
Qed.

Lemma joined_mirrors (mk : string -> LeagueEntity) (st : State) :
  (forall i, id (fields (mk i)) = i) ->
  mirrors st -> mirrors (joined (mk (Store.new_id (store st))) st).
Proof.
  intros Hmk Hm. pose proof Hm as [Hok Hperm]. split.
  - exact (store_ok_create mk (store st) Hmk Hok).
  - cbn [joined store ranktable Store.rows]. unfold RankTable.getData in *.
    rewrite map_app. cbn [map].
    rewrite <- (Permutation_map unscored (insert_sorted_perm _ _)). cbn [map].
    rewrite <- Hperm. apply Permutation_sym, Permutation_cons_append.
Qed.

Lemma joinLeague_mirrors (w : World) (user : option string) (script_id : string)
      (now : Z) (st : State) :
  mirrors st -> mirrors (fst (joinLeague w user script_id now st)).
Proof.
  intros Hm. destruct (authorize_cases user) as [[u [-> [Hu Hauth]]]|Hno].
  - unfold joinLeague, bind. rewrite Hauth.
    destruct (getUserScript w script_id) as [script|err] eqn:Hscript; [|assumption].
    destruct (string_eqb (Script.ownerId script) u) eqn:Hown; [|assumption].
    cbn [negb]. rewrite getUserSubmission_Some by assumption.
    pose proof (leaveLeague_state u st Hm Hu) as Hleave.
    destruct (leaveLeague (Some u) st) as [st1 r1] eqn:Hl. cbn [fst] in Hleave. subst st1.
    pose proof (purged_mirrors u st Hm) as Hm1.
    destruct r1 as [x|err]; [|assumption].
    unfold create, Store.create. cbn [fst snd].
    unfold set_ranktable at 1, RankTable.add. cbn [store ranktable].
    match goal with
    | |- context [RankTable.has_id (id (fields (addDefaults ?n ?p ?i))) ?l] =>
        change (id (fields (addDefaults n p i))) with i
    end.
    rewrite (mirrors_fresh _ Hm1).
    match goal with
    | |- context [getLeagueSummary _ ?s] =>
        rewrite (getLeagueSummary_Some u s Hu); cbn [fst];
        assert (Hs : mirrors s); [|exact Hs]
    end.
    exact (joined_mirrors (addDefaults now _) (purged u st) (fun _ => eq_refl) Hm1).
  - unfold joinLeague, bind. now rewrite Hno.
Qed.

Lemma updateScore_unscored (i : string) (s ft fw fl : Z) (l l' : RankTable.t) :
  RankTable.updateScore i s ft fw fl l = Ok l' ->
  Permutation (map unscored l) (map unscored l').
Proof.
  unfold RankTable.updateScore. destruct (RankTable.has_id i l); [|discriminate].
  intros Heq. injection Heq as <-.
  rewrite <- (Permutation_map unscored (sort_perm _)), map_map.
  apply Permutation_refl'. apply map_ext. intros e.
  now destruct (string_eqb (id e) i).
Qed.

Lemma updateRank_returns_mirrors (i : string) (winner : bool) (st : State) :
  mirrors st -> mirrors (fst (updateRank_returns i winner st)).
Proof.
  intros Hm. unfold updateRank_returns, bind, ask_store.
  destruct (Store.get i (store st)) as [entity|err]; [|assumption].
  cbn zeta. unfold set_ranktable.
  match goal with
  | |- context [RankTable.updateScore ?j ?s ?ft ?fw ?fl (ranktable st)] =>
      destruct (RankTable.updateScore j s ft fw fl (ranktable st)) as [rt|err] eqn:Hrt
  end; [|assumption].
  destruct Hm as [Hok Hperm]. split; cbn [fst store ranktable]; [assumption|].
  unfold RankTable.getData in *. rewrite Hperm.
  exact (updateScore_unscored _ _ _ _ _ _ _ Hrt).
Qed.

Lemma store_write_mirrors (i : string) (s ft fw fl : Z) (st : State) :
  mirrors st -> mirrors (fst (store_write i s ft fw fl st)).
Proof.
  intros [Hok Hperm]. unfold store_write, set_store. cbn [fst]. split; cbn [store ranktable].
  - now apply store_ok_update.
  - rewrite <- Hperm. unfold Store.update. cbn [Store.rows]. rewrite map_map.
    apply Permutation_refl'. apply map_ext. intros e.
    now destruct (Store.has_id i e).
Qed.

Lemma updateRank_mirrors (i : string) (winner : bool) (st : State) :
  mirrors st -> mirrors (fst (updateRank i winner st)).
Proof.
  intros Hm. destruct (Store.get i (store st)) as [entity|err] eqn:Hget.
  - destruct (updateRank_state st i winner entity Hget) as [Hstore Hrt].
    destruct Hm as [Hok Hperm]. split.
    + rewrite Hstore. now apply store_ok_update.
    + rewrite Hstore, Hrt. unfold Store.update. cbn [Store.rows]. rewrite map_map.
      unfold RankTable.getData in *.
      transitivity (map unscored (ranktable st)).
      * rewrite <- Hperm. apply Permutation_refl'. apply map_ext. intros e.
        now destruct (Store.has_id i e).
      * match goal with
        | |- context [RankTable.updateScore ?j ?s ?ft ?fw ?fl (ranktable st)] =>
            destruct (RankTable.updateScore j s ft fw fl (ranktable st)) as [rt|e] eqn:Hu
        end; [|reflexivity].
        exact (updateScore_unscored _ _ _ _ _ _ _ Hu).
  - unfold updateRank, bind, ask_store. now rewrite Hget.
Qed.

(** The request handled at once is the return followed by its write. *)
Lemma updateRank_returns_then_writes (st : State) (i : string) (winner : bool)
      (entity : LeagueEntity) :
  Store.get i (store st) = Ok entity ->
  let e := fields entity in
  fst (updateRank i winner st) =
  fst (store_write i (Math_round (newScore winner (score e))) (fights_total e + 1)
                   (fights_win e + b2z winner) (fights_lose e + b2z (negb winner))
                   (fst (updateRank_returns i winner st))).
Proof.
  intros Hget e. subst e. destruct (store_get_id _ _ _ Hget) as [Hid _].
  unfold updateRank, updateRank_returns, store_write, bind, ask_store, set_store,
    set_ranktable.
  rewrite Hget. cbn zeta. rewrite Hid. cbn [store ranktable fst snd].
  destruct (RankTable.updateScore i _ _ _ _ (ranktable st)); reflexivity.
Qed.

(** Between the return and the write the index is ahead of the store. *)
Lemma updateRank_returned_ahead :
  let st := reached [Handled monica_joins; Returned "0" true] in
  option_map score (stored "0" st) = Some 0 /\
  option_map score (indexed "0" st) = Some 400 /\
  option_map score (stored "0" (occur st (Written "0" 400 1 1 0))) = Some 400.
Proof. vm_compute. auto. Qed.

Lemma occur_mirrors (st : State) (ev : Event) : mirrors st -> mirrors (occur st ev).
Proof.
  intros Hm. destruct ev as [[files now|w user script_id now|user|i winner]|i winner|i s ft fw fl];
    unfold occur, perform.
  - apply consistent_mirrors, appSeed_consistent, Hm.
  - now apply joinLeague_mirrors.
  - now apply leaveLeague_mirrors.
  - now apply updateRank_mirrors.
  - now apply updateRank_returns_mirrors.
  - now apply store_write_mirrors.
Qed.

Lemma reached_mirrors (events : list Event) : mirrors (reached events).
Proof.
  unfold reached. generalize (consistent_mirrors _ consistent_initial). generalize initial.
  induction events as [|ev rest IH]; intros st Hm; [assumption|].
  cbn. apply IH. now apply occur_mirrors.
Qed.

(** X4.  Whenever the store carries out the write that [updateRank] starts
    and does not await, and whether or not it does: in every state the
    service reaches the index holds one entry per identifier, as many
    entries as the store, and under every identifier the fields of the
    stored entry, the four that [updateRank] writes left aside. *)
Theorem index_mirrors_store (events : list Event) :
  let st := reached events in
  NoDup (map id (RankTable.getData (ranktable st))) /\
  RankTable.getLength (ranktable st) = List.length (Store.rows (store st)) /\
  forall i, option_map unscored (indexed i st) = option_map unscored (stored i st).
Proof.
  intros st. pose proof (reached_mirrors events) as Hm. fold st in Hm.
  split; [now apply mirrors_ids|]. split.
  - destruct Hm as [_ Hperm]. unfold RankTable.getLength, RankTable.getData in *.
    apply Permutation_length in Hperm. rewrite !length_map in Hperm. auto.
  - intros i. now apply mirrors_lookup.
Qed.

Lemma store_get_update_other (i j : string) (set : LeagueEntity -> LeagueEntity)
      (s : Store.t) :
  (forall x, id (fields (set x)) = id (fields x)) ->
  j <> i ->
  Store.get j (Store.update i set s) = Store.get j s.
Proof.
  intros Hset Hji.
  assert (Hfind : find (Store.has_id j)
                       (map (fun e => if Store.has_id i e then set e else e) (Store.rows s)) =
                  find (Store.has_id j) (Store.rows s)).
  { induction (Store.rows s) as [|x rest IH]; cbn [map find]; [reflexivity|].
    destruct (Store.has_id i x) eqn:Hxi.
    - assert (Hxj : Store.has_id j x = false).
      { unfold Store.has_id in *. apply string_eqb_eq in Hxi.
        apply string_eqb_neq. congruence. }
      assert (Hsj : Store.has_id j (set x) = false).
      { unfold Store.has_id in *. now rewrite Hset. }
      now rewrite Hxj, Hsj.
    - destruct (Store.has_id j x); [reflexivity|exact IH]. }
  unfold Store.get, Store.update. cbn [Store.rows]. now rewrite Hfind.
Qed.

(** X5.  In every state the service reaches, [updateRank] on one entry
    leaves every other entry as it is, in the store and in the index, and
    does not change the number of entries. *)
Theorem updateRank_other_entries (actions : list Action) (i j : string)
        (winner : bool) :
  let st := run actions in
  let st' := fst (updateRank i winner st) in
  j <> i ->
  stored j st' = stored j st /\
  indexed j st' = indexed j st /\
  RankTable.getLength (ranktable st') = RankTable.getLength (ranktable st).
Proof.
  intros st st' Hji. pose proof (run_consistent actions) as Hc. fold st in Hc.
  pose proof (updateRank_consistent st i winner Hc) as Hc'. fold st' in Hc'.
  assert (Hstored : stored j st' = stored j st).
  { unfold st'. destruct (Store.get i (store st)) as [entity|err] eqn:Hget.
    - destruct (updateRank_state st i winner entity Hget) as [Hstore _].
      unfold stored. rewrite Hstore. now rewrite store_get_update_other.
    - unfold updateRank, bind, ask_store. now rewrite Hget. }
  split; [exact Hstored|]. split.
  - now rewrite <- !consistent_lookup.
  - unfold RankTable.getLength.
    destruct Hc as [_ Hp], Hc' as [_ Hp']. unfold RankTable.getData in *.
    rewrite <- (Permutation_length Hp), <- (Permutation_length Hp'), !length_map.
    unfold st'. destruct (Store.get i (store st)) as [entity|err] eqn:Hget.
    + destruct (updateRank_state st i winner entity Hget) as [-> _].
      unfold Store.update. cbn. apply length_map.
    + unfold updateRank, bind, ask_store. now rewrite Hget.
Qed.

(** ** Leaving and joining *)

Lemma filter_idem {A : Type} (f : A -> bool) (l : list A) :
  filter f (filter f l) = filter f l.
Proof.
  rewrite filter_filter. apply filter_ext. intros x. now destruct (f x).
Qed.

Lemma purged_idem (u : string) (st : State) : purged u (purged u st) = purged u st.
Proof.
  unfold purged. cbn [store ranktable Store.rows Store.created].
  now rewrite !filter_idem.
Qed.


(** X7.  Leaving twice is leaving once: in every state the service reaches,
    a second [leaveLeague] by the same caller changes nothing. *)
Theorem leaveLeague_twice (actions : list Action) (user : option string) :
  let st := run actions in
  fst (leaveLeague user (fst (leaveLeague user st))) = fst (leaveLeague user st).
Proof.
  intros st. pose proof (run_consistent actions) as Hc. fold st in Hc.
  destruct (authorize_cases user) as [[u [-> [Hu _]]]|Hno].
  - rewrite (leaveLeague_effect u st Hc Hu). cbn [fst].
    rewrite (leaveLeague_effect u _ (purged_consistent u st Hc) Hu). cbn [fst].
    apply purged_idem.
  - now rewrite !leaveLeague_unauthorized.
Qed.


Lemma filter_insert_sorted_out (f : RankEntry -> bool) (x : RankEntry)
      (l : list RankEntry) :
  f x = false -> filter f (RankTable.insert_sorted x l) = filter f l.
Proof.
  intros Hx. induction l as [|y rest IH]; cbn; [now rewrite Hx|].
  destruct (RankTable.entry_leb x y); cbn; [now rewrite Hx|].
  now rewrite IH.
Qed.

(** X9.  In every state the service reaches, a successful [joinLeague]
    touches no entry of another owner: the entries of the others are the
    same before and after, in the store and in the index. *)
Theorem joinLeague_other_owners (actions : list Action) (w : World)
        (u script_id : string) (now : Z) (summary : Summary) :
  let st := run actions in
  let st' := fst (joinLeague w (Some u) script_id now st) in
  snd (joinLeague w (Some u) script_id now st) = Ok summary ->
  filter (fun e => negb (owned_by u e)) (Store.rows (store st')) =
    filter (fun e => negb (owned_by u e)) (Store.rows (store st)) /\
  filter (fun e => negb (string_eqb (ownerId e) u)) (ranktable st') =
    filter (fun e => negb (string_eqb (ownerId e) u)) (ranktable st) /\
  RankTable.getLength (ranktable st') =
    S (List.length (filter (fun e => negb (string_eqb (ownerId e) u)) (ranktable st))).
Proof.
  intros st st'. pose proof (run_consistent actions) as Hc. fold st in Hc.
  unfold st'.
  destruct (joinLeague_cases w (Some u) script_id now st Hc)
    as [[err ->]|[u' [script [Hu' [Hu [Hscript [Hown ->]]]]]]]; [discriminate|].
  injection Hu' as <-. intros _. cbn [fst].
  set (e := addDefaults now _ _).
  assert (He : owned_by u e = true).
  { unfold owned_by. cbn. rewrite Hown. now apply string_eqb_eq. }
  cbn [joined purged store ranktable Store.rows].
  split; [|split].
  - rewrite filter_app, filter_idem. cbn [filter]. rewrite He. cbn [negb].
    apply app_nil_r.
  - rewrite filter_insert_sorted_out; [apply filter_idem|].
    unfold owned_by in He. now rewrite He.
  - unfold RankTable.getLength.
    rewrite <- (Permutation_length (insert_sorted_perm _ _)). reflexivity.
Qed.

(** X10.  Joining and then leaving leaves the league as leaving alone does:
    after a successful [joinLeague], [leaveLeague] by the same user gives
    the documents and the index that [leaveLeague] gives without the
    join. *)
Theorem join_then_leave (actions : list Action) (w : World)
        (u script_id : string) (now : Z) (summary : Summary) :
  let st := run actions in
  let joined_st := fst (joinLeague w (Some u) script_id now st) in
  snd (joinLeague w (Some u) script_id now st) = Ok summary ->
  Store.rows (store (fst (leaveLeague (Some u) joined_st))) =
    Store.rows (store (fst (leaveLeague (Some u) st))) /\
  ranktable (fst (leaveLeague (Some u) joined_st)) =
    ranktable (fst (leaveLeague (Some u) st)).
Proof.
  intros st joined_st. pose proof (run_consistent actions) as Hc. fold st in Hc.
  pose proof (joinLeague_consistent w (Some u) script_id now st Hc) as Hc'.
  fold joined_st in Hc'. revert Hc'. unfold joined_st.
  destruct (joinLeague_cases w (Some u) script_id now st Hc)
    as [[err ->]|[u' [script [Hu' [Hu [Hscript [Hown ->]]]]]]]; [discriminate|].
  injection Hu' as <-. cbn [fst]. intros Hc' _.
  set (e := addDefaults now _ _) in *.
  assert (He : owned_by u e = true).
  { unfold owned_by. cbn. rewrite Hown. now apply string_eqb_eq. }
  rewrite (leaveLeague_effect u _ Hc' Hu), (leaveLeague_effect u st Hc Hu).
  cbn [fst joined purged store ranktable Store.rows]. split.
  - rewrite filter_app, filter_idem. cbn [filter]. rewrite He. cbn [negb].
    apply app_nil_r.
  - rewrite filter_insert_sorted_out; [apply filter_idem|].
    unfold owned_by in He. now rewrite He.
Qed.

(** ** Seeding *)

Lemma creations_state (now : Z) (ps : list CreateParams) (st : State) :
  for_each ps (fun p => create now p ;;; ret tt) st =
  ({| store := {| Store.rows := Store.rows (store st) ++
                                created_docs now ps (Store.created (store st));
                  Store.created := (List.length ps + Store.created (store st))%nat |};
      ranktable := ranktable st |}, Ok tt).
Proof.
  revert st. induction ps as [|p rest IH]; intros st.
  - cbn. rewrite app_nil_r. now destruct st as [[rows created] rt].
  - cbn [for_each]. unfold bind at 1. unfold bind at 1.
    unfold create at 1, Store.create, ret at 1. cbn [fst snd].
    rewrite IH. cbn [store ranktable Store.rows Store.created created_docs List.length].
    unfold Store.new_id. rewrite <- app_assoc. cbn [app].
    now rewrite Nat.add_succ_r.
Qed.

Lemma appSeed_state (files : list (string * string)) (now : Z) (st : State) :
  let seeded :=
    {| Store.rows := Store.rows (store st) ++
                     created_docs now (missing_seeds files (store st))
                                  (Store.created (store st));
       Store.created := (List.length (missing_seeds files (store st)) +
                         Store.created (store st))%nat |} in
  appSeed files now st =
  ({| store := seeded;
      ranktable := RankTable.init (map fields (Store.find_by_score_desc seeded)) |},
   Ok tt).
Proof.
  unfold appSeed, seedLeague. fold (seed_entries files).
  unfold bind at 1. unfold bind at 1. unfold ask_store at 1.
  fold (missing_seeds files (store st)).
  rewrite creations_state. reflexivity.
Qed.

(** X11.  Whatever the index held, after the [app.seed] handler it holds
    exactly the tracked fields of the documents of the store, in ranking
    order; the handler does not fail and keeps the documents that were
    there, in their order, before the ones it creates. *)
Theorem appSeed_rebuilds_index (files : list (string * string)) (now : Z) (st : State) :
  let st' := fst (appSeed files now st) in
  snd (appSeed files now st) = Ok tt /\
  Permutation (map fields (Store.rows (store st'))) (RankTable.getData (ranktable st')) /\
  StronglySorted ranks_before (RankTable.getData (ranktable st')) /\
  RankTable.getLength (ranktable st') = List.length (Store.rows (store st')) /\
  firstn (List.length (Store.rows (store st))) (Store.rows (store st')) =
    Store.rows (store st).
Proof.
  intros st'. unfold st'. rewrite appSeed_state. cbn [fst snd store ranktable Store.rows].
  unfold RankTable.getData, RankTable.getLength, RankTable.init.
  set (seeded := {| Store.rows := _; Store.created := _ |}).
  assert (Hperm : Permutation (map fields (Store.rows seeded))
                              (RankTable.sort (map fields (Store.find_by_score_desc seeded)))).
  { rewrite <- sort_perm. apply Permutation_map, find_by_score_desc_perm. }
  split; [reflexivity|]. split; [exact Hperm|]. split; [apply sort_sorted|]. split.
  - rewrite <- (Permutation_length Hperm). apply length_map.
  - rewrite firstn_app, Nat.sub_diag, firstn_all. cbn. apply app_nil_r.
Qed.

Lemma in_combine_seq {A : Type} (x : A) (l : list A) (start : nat) :
  In x l -> exists k, In (k, x) (combine (seq start (List.length l)) l).
Proof.
  revert start. induction l as [|y rest IH]; intros start Hin; [contradiction|].
  cbn. destruct Hin as [->|Hin].
  - exists start. now left.
  - destruct (IH (S start) Hin) as [k Hk]. exists k. now right.
Qed.

Lemma seed_entries_of_file (files : list (string * string)) (file : string * string) :
  In file files ->
  exists p, In p (seed_entries files) /\
            p_scriptName p = strip_tank (fst file) /\ p_code p = snd file.
Proof.
  intros Hin. destruct (in_combine_seq file files 0 Hin) as [k Hk].
  exists (seed_entry k file). split; [|split; reflexivity].
  unfold seed_entries. apply in_map_iff. exists (k, file). auto.
Qed.

Lemma seed_entries_owner (files : list (string * string)) (p : CreateParams) :
  In p (seed_entries files) ->
  p_ownerId p = "int-user-0000-1" /\ p_ownerName p = "jsbattle" /\ p_score p = None.
Proof.
  unfold seed_entries. rewrite in_map_iff. intros [[k f] [<- _]]. now cbn.
Qed.

Lemma created_docs_sound (now : Z) (ps : list CreateParams) (n : nat) (d : LeagueEntity) :
  In d (created_docs now ps n) ->
  exists p k, In p ps /\ d = addDefaults now p (Store.decimal k).
Proof.
  revert n. induction ps as [|p rest IH]; intros n; cbn; [contradiction|].
  intros [<-|Hin]; [exists p, n; auto|].
  destruct (IH _ Hin) as [p' [k [Hp ->]]]. exists p', k. auto.
Qed.

Lemma created_docs_complete (now : Z) (ps : list CreateParams) (n : nat) (p : CreateParams) :
  In p ps -> exists k, In (addDefaults now p (Store.decimal k)) (created_docs now ps n).
Proof.
  revert n. induction ps as [|q rest IH]; intros n; cbn; [contradiction|].
  intros [->|Hin]; [exists n; now left|].
  destruct (IH (S n) Hin) as [k Hk]. exists k. now right.
Qed.

Lemma seed_found (files : list (string * string)) (now : Z) (s : Store.t)
      (p : CreateParams) :
  In p (seed_entries files) ->
  exists r,
    In r (Store.rows s ++ created_docs now (missing_seeds files s) (Store.created s)) /\
    is_seeded p r = true.
Proof.
  intros Hp. destruct (Store.find (is_seeded p) s) as [|r rest] eqn:Hfind.
  - assert (Hmiss : In p (missing_seeds files s)).
    { unfold missing_seeds. apply filter_In. split; [assumption|]. now rewrite Hfind. }
    destruct (created_docs_complete now _ (Store.created s) p Hmiss) as [k Hk].
    eexists. split; [apply in_or_app; right; exact Hk|].
    unfold is_seeded. cbn.
    destruct (seed_entries_owner files p Hp) as [_ [-> _]].
    now rewrite !(proj2 (string_eqb_eq _ _) eq_refl).
  - assert (Hr : In r (Store.find (is_seeded p) s)) by (rewrite Hfind; now left).
    unfold Store.find in Hr. apply filter_In in Hr. destruct Hr as [Hin Hseed].
    exists r. split; [apply in_or_app; now left|assumption].
Qed.

(** X12.  After the [app.seed] handler the store holds, for every seed file,
    a document of owner name [jsbattle] named after the file without its
    [.tank] ending; every document the handler adds is owned by
    [int-user-0000-1], is dated at the time of seeding and starts with score
    0 and no fights. *)
Theorem appSeed_seeds_present (files : list (string * string)) (now : Z) (st : State) :
  let st' := fst (appSeed files now st) in
  (forall file, In file files ->
     exists r, In r (Store.rows (store st')) /\
               ownerName (fields r) = "jsbattle" /\
               scriptName (fields r) = strip_tank (fst file)) /\
  (forall r, In r (Store.rows (store st')) ->
     In r (Store.rows (store st)) \/
     (ownerId (fields r) = "int-user-0000-1" /\ ownerName (fields r) = "jsbattle" /\
      joinedAt (fields r) = now /\ score (fields r) = 0 /\
      fights_total (fields r) = 0 /\ fights_win (fields r) = 0 /\
      fights_lose (fields r) = 0 /\ fights_error (fields r) = 0)).
Proof.
  intros st'. unfold st'. rewrite appSeed_state. cbn [fst store Store.rows]. split.
  - intros file Hfile.
    destruct (seed_entries_of_file files file Hfile) as [p [Hp [Hname _]]].
    destruct (seed_found files now (store st) p Hp) as [r [Hr Hseed]].
    exists r. split; [exact Hr|].
    unfold is_seeded in Hseed. apply andb_true_iff in Hseed.
    destruct Hseed as [Howner Hscript]. apply string_eqb_eq in Howner, Hscript.
    split; congruence.
  - intros r Hr. apply in_app_or in Hr. destruct Hr as [Hr|Hr]; [now left|].
    right. apply created_docs_sound in Hr. destruct Hr as [p [k [Hp ->]]].
    unfold missing_seeds in Hp. apply filter_In in Hp. destruct Hp as [Hp _].
    destruct (seed_entries_owner files p Hp) as [Hid [Hname Hscore]].
    cbn. rewrite Hid, Hname, Hscore. repeat split.
Qed.

Lemma filter_none {A : Type} (f : A -> bool) (l : list A) :
  (forall x, In x l -> f x = false) -> filter f l = [].
Proof.
  induction l as [|x rest IH]; cbn; intros H; [reflexivity|].
  rewrite (H x (or_introl eq_refl)). apply IH. intros y Hy. apply H. now right.
Qed.

(** X13.  Seeding is idempotent: a second run of the [app.seed] handler on
    the same seed files creates nothing and leaves store and index as the
    first run left them. *)
Theorem appSeed_twice (files : list (string * string)) (now now' : Z) (st : State) :
  appSeed files now' (fst (appSeed files now st)) = (fst (appSeed files now st), Ok tt).
Proof.
  rewrite (appSeed_state files now st). cbn [fst].
  set (seeded := {| Store.rows := _; Store.created := _ |}).
  rewrite appSeed_state. cbn [store ranktable].
  assert (Hnone : missing_seeds files seeded = []).
  { unfold missing_seeds. apply filter_none. intros p Hp.
    destruct (seed_found files now (store st) p Hp) as [r [Hr Hseed]].
    assert (Hin : In r (Store.find (is_seeded p) seeded)).
    { unfold Store.find. apply filter_In. split; assumption. }
    now destruct (Store.find (is_seeded p) seeded). }
  rewrite Hnone. cbn [created_docs List.length Nat.add]. rewrite app_nil_r.
  now destruct seeded.
Qed.

Lemma string_length_append (a b : string) :
  String.length (a ++ b) = (String.length a + String.length b)%nat.
Proof. induction a as [|c a IH]; cbn; congruence. Qed.

(** X14.  The script name of a seed file is the file name without a final
    [.tank]: such an ending is cut off, whatever precedes it, and a name
    without that ending is kept whole. *)
Theorem strip_tank_ending :
  (forall base, strip_tank (base ++ ".tank") = base) /\
  (forall name, (forall base, name <> (base ++ ".tank")%string) -> strip_tank name = name).
Proof.
  split.
  - induction base as [|c base IH]; [reflexivity|].
    cbn [String.append strip_tank].
    assert (Hneq : string_eqb (String c (base ++ ".tank")) ".tank" = false).
    { apply string_eqb_neq. intros Heq.
      apply (f_equal String.length) in Heq. cbn in Heq.
      rewrite string_length_append in Heq. cbn in Heq. lia. }
    rewrite Hneq. now rewrite IH.
  - induction name as [|c name IH]; intros Hno; [reflexivity|].
    cbn [strip_tank].
    destruct (string_eqb (String c name) ".tank") eqn:Heq.
    + apply string_eqb_eq in Heq. exfalso. apply (Hno ""%string). exact Heq.
    + f_equal. apply IH. intros base Hbase. apply (Hno (String c base)).
      cbn. now rewrite Hbase.
Qed.

(** ** The ranking around the caller *)







(** X16.  Without a logged-in user (no user, or a user with an empty
    identifier) [getScript], [getUserSubmission], [joinLeague],
    [leaveLeague], [getUserRankTable] and [getLeagueSummary] all fail with
    [NotAuthorized] and change nothing. *)
Theorem league_requires_login (user : option string) (st : State) :
  user = None \/ user = Some "" ->
  (forall script_id, getScript user script_id st = (st, Err NotAuthorized)) /\
  getUserSubmission user st = (st, Err NotAuthorized) /\
  (forall w script_id now, joinLeague w user script_id now st = (st, Err NotAuthorized)) /\
  leaveLeague user st = (st, Err NotAuthorized) /\
  getUserRankTable user st = (st, Err NotAuthorized) /\
  getLeagueSummary user st = (st, Err NotAuthorized).
Proof.
  intros [-> | ->]; repeat split; reflexivity.
Qed.

(** ** Paging through the whole table *)

Lemma chunks_concat {A : Type} (c : nat) (l : list A) (n : nat) :
  (List.length l <= n * c)%nat ->
  flat_map (fun k => firstn c (skipn (k * c) l)) (seq 0 n) = l.
Proof.
  revert l. induction n as [|n IH]; intros l Hlen.
  - cbn in *. destruct l; [reflexivity|cbn in Hlen; lia].
  - cbn [seq flat_map]. rewrite <- seq_shift, flat_map_concat_map, map_map,
      <- flat_map_concat_map.
    cbn [Nat.mul Nat.add skipn].
    rewrite (flat_map_ext _ (fun k => firstn c (skipn (k * c) (skipn c l)))).
    + rewrite IH; [apply firstn_skipn|]. rewrite length_skipn. lia.
    + intros k. rewrite skipn_skipn. do 2 f_equal. lia.
Qed.

Lemma ceil_div_bounds (n c : nat) :
  (0 < c)%nat ->
  let q := ((n + c - 1) / c)%nat in
  (n <= q * c)%nat /\ (0 < n -> (q - 1) * c < n)%nat /\ (n = 0 -> q = 0)%nat.
Proof.
  intros Hc q.
  pose proof (Nat.div_mod_eq (n + c - 1) c) as Hdiv.
  pose proof (Nat.mod_upper_bound (n + c - 1) c ltac:(lia)) as Hmod.
  fold q in Hdiv. rewrite (Nat.mul_comm c q) in Hdiv.
  repeat split.
  - lia.
  - intros Hn. destruct q as [|q']; [lia|]. cbn [Nat.sub]. rewrite Nat.sub_0_r. 
    cbn [Nat.mul] in Hdiv. lia.
  - intros ->. destruct q as [|q']; [reflexivity|]. cbn [Nat.mul] in Hdiv. lia.
Qed.

Lemma or_default_pos (x : option nat) (d : nat) : (0 < d -> 0 < or_default x d)%nat.
Proof. destruct x as [[|n]|]; cbn; lia. Qed.

(** X17.  The pages of [listRankTable] partition the table: for any page
    size, the rows of the pages 1 to [totalPages], one after the other, are
    the whole table in its order. *)
Theorem listRankTable_pages_cover (st : State) (p ps : option nat) :
  pages_upto (totalPages (listRankTable p ps st)) ps st =
  RankTable.getData (ranktable st).
Proof.
  unfold pages_upto. cbn [totalPages listRankTable].
  set (c := or_default ps 10).
  assert (Hc : (0 < c)%nat) by (apply or_default_pos; lia).
  rewrite (flat_map_ext _ (fun k => firstn c (skipn (k * c) (RankTable.getData (ranktable st))))).
  - apply chunks_concat.
    destruct (ceil_div_bounds (RankTable.getLength (ranktable st)) c Hc) as [H _].
    exact H.
  - intros k. cbn [rows listRankTable or_default]. fold c.
    rewrite rows_at_firstn_skipn. do 2 f_equal. lia.
Qed.

(** X18.  [totalPages] is the number of pages that hold rows: it is 0 for
    an empty table, the last page holds at least one row and at most
    [pageSize], and every page after it is empty; [total] is the length of
    the table. *)
Theorem listRankTable_totalPages (st : State) (p ps : option nat) :
  let r := listRankTable p ps st in
  total r = RankTable.getLength (ranktable st) /\
  (total r = 0%nat -> totalPages r = 0%nat) /\
  ((0 < total r)%nat ->
   (0 < totalPages r)%nat /\
   (0 < List.length (rows (listRankTable (Some (totalPages r)) ps st)) <= pageSize r)%nat) /\
  (forall k, (totalPages r < k)%nat -> rows (listRankTable (Some k) ps st) = []).
Proof.
  intros r. unfold r. cbn [total totalPages pageSize listRankTable].
  set (c := or_default ps 10). set (n := RankTable.getLength (ranktable st)).
  assert (Hc : (0 < c)%nat) by (apply or_default_pos; lia).
  destruct (ceil_div_bounds n c Hc) as [Hup [Hlow Hzero]].
  set (q := ((n + c - 1) / c)%nat) in *.
  split; [reflexivity|]. split; [exact Hzero|]. split.
  - intros Hn. specialize (Hlow Hn).
    assert (Hq : (0 < q)%nat) by (destruct q; [cbn in Hup; lia|lia]).
    split; [exact Hq|].
    destruct q as [|q']; [lia|]. cbn [rows listRankTable or_default]. fold c.
    rewrite rows_at_firstn_skipn, length_firstn, length_skipn.
    unfold RankTable.getData. fold (RankTable.getLength (ranktable st)). fold n.
    cbn [Nat.sub] in *. rewrite Nat.sub_0_r in *. lia.
  - intros k Hk. destruct k as [|k']; [lia|]. cbn [rows listRankTable or_default]. fold c.
    rewrite rows_at_firstn_skipn. cbn [Nat.sub]. rewrite Nat.sub_0_r.
    rewrite skipn_all2; [now destruct c|].
    unfold RankTable.getData. fold (RankTable.getLength (ranktable st)). fold n.
    assert (q * c <= k' * c)%nat by (apply Nat.mul_le_mono_r; lia). lia.
Qed.

(** ** Reading a script, drawing opponents *)

Lemma getScript_Some (v i : string) (st : State) :
  v <> "" ->
  getScript (Some v) i st =
  (st, match Store.get i (store st) with
       | Ok response =>
           Ok {| view_id := id (fields response);
                 view_scriptName :=
                   (ownerName (fields response) ++ "/" ++ scriptName (fields response))%string;
                 view_code := code response |}
       | Err err => Err err
       end).
Proof.
  intros Hv. unfold getScript, bind. rewrite authorize_Some by assumption.
  unfold ask_store. now destruct (Store.get i (store st)).
Qed.

(** X19.  What [joinLeague] stores, [getScript] returns: in every state the
    service reaches, after a successful [joinLeague] any logged-in user gets
    under the identifier of the new entry the code as it was published, and
    as name the owner name and the script name of the script joined by a
    slash.  For an identifier the store does not hold, [getScript] fails
    with [EntityNotFound]. *)
Theorem getScript_after_join (actions : list Action) (w : World)
        (user : option string) (script_id : string) (now : Z)
        (summary : Summary) (v : string) :
  let st := run actions in
  let st' := fst (joinLeague w user script_id now st) in
  snd (joinLeague w user script_id now st) = Ok summary ->
  v <> "" ->
  (exists script entity,
     getUserScript w script_id = Ok script /\
     submission summary = Some entity /\
     getScript (Some v) (id (fields entity)) st' =
     (st', Ok {| view_id := id (fields entity);
                 view_scriptName :=
                   (Script.ownerName script ++ "/" ++ Script.scriptName script)%string;
                 view_code := published w (Script.code script) |})) /\
  (forall i, stored i st' = None ->
             getScript (Some v) i st' = (st', Err EntityNotFound)).
Proof.
  intros st st'. pose proof (run_consistent actions) as Hc. fold st in Hc.
  unfold st'.
  destruct (joinLeague_cases w user script_id now st Hc)
    as [[err ->]|[u [script [-> [Hu [Hscript [Hown ->]]]]]]]; [discriminate|].
  intros [= <-] Hv. cbn [fst submission]. split.
  - set (e := addDefaults now _ _).
    exists script, e. split; [exact Hscript|]. split; [reflexivity|].
    rewrite getScript_Some by assumption.
    cbn [joined purged store Store.rows Store.created].
    rewrite store_get_created; [reflexivity|].
    intros Hin. apply (store_ok_fresh _ (proj1 Hc)).
    apply in_map_iff in Hin. destruct Hin as [x [Hx Hin]].
    apply filter_In in Hin. apply in_map_iff. exists x. tauto.
  - intros i Hnone. rewrite getScript_Some by assumption.
    unfold stored in Hnone.
    destruct (Store.get i _) as [r|err] eqn:Hget; [discriminate|].
    now rewrite (store_get_error _ _ _ Hget).
Qed.

(** X20.  In every state the service reaches, [pickRandomOpponents] changes
    nothing, and whenever the index draws a pair it returns the two stored
    documents of that pair, in the order drawn: the reads from the store do
    not fail. *)
Theorem pickRandomOpponents_returns_drawn (actions : list Action) (rng : nat -> nat) :
  let st := run actions in
  fst (pickRandomOpponents rng st) = st /\
  (forall a b,
     RankTable.pickRandom rng (ranktable st) = Ok (a, b) ->
     exists opponent1 opponent2,
       snd (pickRandomOpponents rng st) = Ok [opponent1; opponent2] /\
       fields opponent1 = a /\ fields opponent2 = b) /\
  snd (pickRandomOpponents rng st) <> Err EntityNotFound.
Proof.
  intros st. pose proof (run_consistent actions) as Hc. fold st in Hc.
  destruct (pickRandomOpponents_result rng st) as [Hfst Hsnd].
  assert (Hread : forall a, In a (ranktable st) ->
                  exists o, Store.get (id a) (store st) = Ok o /\ fields o = a).
  { intros a Ha. pose proof (consistent_lookup st (id a) Hc) as Hlook.
    unfold stored, indexed in Hlook.
    destruct (RankTable.getById (id a) (ranktable st)) as [x|] eqn:Hx.
    - destruct (Store.get (id a) (store st)) as [o|] eqn:Ho; [|discriminate].
      exists o. split; [reflexivity|]. now apply (consistent_get st a o Hc Ha).
    - unfold RankTable.getById in Hx.
      destruct (find _ _) eqn:Hf; [discriminate|].
      eapply find_none in Hf; [|exact Ha].
      rewrite (proj2 (string_eqb_eq _ _) eq_refl) in Hf. discriminate. }
  split; [exact Hfst|]. rewrite Hsnd. split.
  - intros a b Hpick. rewrite Hpick.
    destruct (pickRandom_Ok _ _ _ _ Hpick) as [_ [Ha [Hb _]]].
    destruct (Hread a Ha) as [o1 [-> H1]]. destruct (Hread b Hb) as [o2 [-> H2]].
    exists o1, o2. auto.
  - destruct (RankTable.pickRandom rng (ranktable st)) as [[a b]|err] eqn:Hpick.
    + destruct (pickRandom_Ok _ _ _ _ Hpick) as [_ [Ha [Hb _]]].
      destruct (Hread a Ha) as [o1 [-> _]]. destruct (Hread b Hb) as [o2 [-> _]].
      discriminate.
    + unfold RankTable.pickRandom in Hpick.
      destruct (List.length (ranktable st) <? 2)%nat; [congruence|].
      cbv zeta in Hpick. destruct (nth_error _ _); congruence.
Qed.

(** ** User names *)

Lemma all_chars_impl (p q : ascii -> bool) (s : string) :
  (forall c, p c = true -> q c = true) ->
  UserStore.all_chars p s = true -> UserStore.all_chars q s = true.
Proof.
  intros Hpq. induction s as [|c rest IH]; cbn; [reflexivity|].
  rewrite !andb_true_iff. intros [Hc Hrest]. auto.
Qed.

Lemma all_chars_lower (p : ascii -> bool) (s : string) :
  UserStore.all_chars p (UserStore.toLowerCase s) =
  UserStore.all_chars (fun c => p (UserStore.lower_char c)) s.
Proof. induction s as [|c rest IH]; cbn; congruence. Qed.

Lemma toLowerCase_length (s : string) :
  String.length (UserStore.toLowerCase s) = String.length s.
Proof. induction s as [|c rest IH]; cbn; congruence. Qed.

Lemma lower_letter_allowed (c : ascii) :
  UserStore.is_lower (UserStore.lower_char c) = true -> UserStore.username_char c = true.
Proof.
  destruct c as [b0 b1 b2 b3 b4 b5 b6 b7].
  destruct b0, b1, b2, b3, b4, b5, b6, b7; vm_compute; intros H;
    first [reflexivity | discriminate H].
Qed.

Lemma username_char_displayName (c : ascii) :
  UserStore.username_char c = true -> UserStore.displayName_char c = true.
Proof.
  unfold UserStore.username_char, UserStore.displayName_char.
  rewrite !orb_true_iff. tauto.
Qed.

Lemma matches_class_all (p : ascii -> bool) (s : string) :
  s <> EmptyString -> UserStore.matches_class p s = UserStore.all_chars p s.
Proof. destruct s; [congruence|reflexivity]. Qed.

(** X21.  [validateUserName] refuses the reserved names in every spelling
    of capital and small letters: a name whose lower-case form is
    [jsbattle], [sandbox], [user] or [admin] is answered with the error for
    reserved names. *)
Theorem reserved_names_any_case (username : string) :
  In (UserStore.toLowerCase username) UserStore.reservedNames ->
  UserStore.validateUserName username = UserStore.Err UserStore.UsernameReserved.
Proof.
  intros Hin.
  assert (Hfacts : (4 <= String.length (UserStore.toLowerCase username))%nat /\
                   UserStore.all_chars UserStore.is_lower (UserStore.toLowerCase username) = true).
  { cbn in Hin. destruct Hin as [<-|[<-|[<-|[<-|[]]]]]; split; cbn; try lia; reflexivity. }
  destruct Hfacts as [Hlen Hlower].
  rewrite toLowerCase_length in Hlen. rewrite all_chars_lower in Hlower.
  assert (Hne : username <> EmptyString) by (intros ->; cbn in Hlen; lia).
  unfold UserStore.validateUserName.
  rewrite (proj2 (string_eqb_neq _ _) Hne).
  destruct (Nat.ltb_spec (String.length username) 3) as [|_]; [lia|].
  rewrite (matches_class_all _ _ Hne).
  rewrite (all_chars_impl _ _ _ lower_letter_allowed Hlower). cbn [negb].
  assert (Hex : existsb (string_eqb (UserStore.toLowerCase username))
                        UserStore.reservedNames = true).
  { apply existsb_exists. exists (UserStore.toLowerCase username).
    split; [exact Hin|now apply string_eqb_eq]. }
  now rewrite Hex.
Qed.

Lemma validateUserName_Ok (username : string) :
  UserStore.validateUserName username = UserStore.Ok tt ->
  username <> EmptyString /\ (3 <= String.length username)%nat /\
  UserStore.all_chars UserStore.username_char username = true /\
  ~ In (UserStore.toLowerCase username) UserStore.reservedNames.
Proof.
  unfold UserStore.validateUserName.
  destruct (string_eqb username "") eqn:Hne; [discriminate|].
  apply string_eqb_neq in Hne.
  destruct (Nat.ltb_spec (String.length username) 3); [discriminate|].
  rewrite (matches_class_all _ _ Hne).
  destruct (UserStore.all_chars UserStore.username_char username) eqn:Hall; [|discriminate].
  cbn [negb].
  destruct (existsb _ UserStore.reservedNames) eqn:Hex; [discriminate|].
  intros _. repeat split; auto.
  intros Hin. apply not_true_iff_false in Hex. apply Hex.
  apply existsb_exists. eexists. split; [exact Hin|now apply string_eqb_eq].
Qed.

(** X22.  Every name [validateUserName] accepts is accepted by
    [validateDisplayName] as well; an accepted user name has at least three
    characters, none of them a space, and is no reserved name in any
    spelling. *)
Theorem valid_username_is_valid_displayName (username : string) :
  UserStore.validateUserName username = UserStore.Ok tt ->
  UserStore.validateDisplayName username = UserStore.Ok tt /\
  (3 <= String.length username)%nat /\
  UserStore.all_chars (fun c => negb (Ascii.eqb c " ")) username = true /\
  ~ In (UserStore.toLowerCase username) UserStore.reservedNames.
Proof.
  intros Hok. destruct (validateUserName_Ok username Hok) as [Hne [Hlen [Hall Hres]]].
  split; [|split; [exact Hlen|split; [|exact Hres]]].
  - unfold UserStore.validateDisplayName.
    rewrite (proj2 (string_eqb_neq _ _) Hne).
    destruct (Nat.ltb_spec (String.length username) 3) as [|_]; [lia|].
    rewrite (matches_class_all _ _ Hne).
    now rewrite (all_chars_impl _ _ _ username_char_displayName Hall).
  - revert Hall. apply all_chars_impl.
    intros c. destruct (Ascii.eqb_spec c " ") as [->|]; [discriminate|reflexivity].
Qed.

(** ** Users *)

Lemma default_username_nonempty (u e d : option string) (name : string) :
  UserStore.default_username u e d = UserStore.Ok name -> name <> "".
Proof.
  unfold UserStore.default_username. intros H Hname. subst name.
  repeat match type of H with
         | context [match ?x with _ => _ end] => destruct x eqn:?
         | context [if ?b then _ else _] => destruct b eqn:?
         end; try discriminate;
  injection H as H; try discriminate;
  repeat match goal with
         | Hb : negb (string_eqb ?s "") = true |- _ =>
             apply negb_true_iff, string_eqb_neq in Hb
         end; congruence.
Qed.

Lemma new_user_fields (now : Z) (role : string) (user : UserStore.ExtUser)
      (i : string) (doc : UserStore.User) :
  UserStore.new_user now role user i = UserStore.Ok doc ->
  UserStore.id doc = i /\
  UserStore.username doc <> "" /\ UserStore.displayName doc <> "" /\
  UserStore.registered doc = false /\
  UserStore.extUserId doc =
    match UserStore.x_extUserId user with Some x => x | None => "" end /\
  UserStore.role doc = (if string_eqb role "" then "user" else role).
Proof.
  unfold UserStore.new_user.
  destruct (UserStore.default_username _ _ _) as [name|] eqn:Hname; [|discriminate].
  apply default_username_nonempty in Hname.
  intros [= <-]. cbn. repeat split; auto.
  unfold UserStore.or_else at 1.
  destruct (UserStore.truthy (UserStore.or_else _ _)) eqn:Ht.
  - destruct (UserStore.or_else _ _) as [d|]; [|discriminate].
    cbn in Ht. apply negb_true_iff in Ht. rewrite Ht. now apply string_eqb_neq.
  - apply string_eqb_neq in Hname as Hn. now rewrite Hn.
Qed.

Lemma findOrCreate_cases (c : UserStore.Config) (now : Z)
      (user : option UserStore.ExtUser) (db : UserStore.Db) :
  (exists e, UserStore.findOrCreate c now user db = (db, UserStore.Err e)) \/
  (exists x_user found,
     user = Some x_user /\
     In found (UserStore.users db) /\
     UserStore.x_extUserId x_user = Some (UserStore.extUserId found) /\
     UserStore.findOrCreate c now user db = (db, UserStore.Ok found)) \/
  (exists x_user x doc,
     user = Some x_user /\
     UserStore.x_extUserId x_user = Some x /\
     (forall r, In r (UserStore.users db) -> UserStore.extUserId r <> x) /\
     UserStore.new_user now (if UserStore.is_admin c x_user then "admin" else "user")
                        x_user (Store.decimal (UserStore.created db)) = UserStore.Ok doc /\
     UserStore.findOrCreate c now user db =
     ({| UserStore.users := UserStore.users db ++ [doc];
         UserStore.created := S (UserStore.created db) |}, UserStore.Ok doc)).
Proof.
  unfold UserStore.findOrCreate. destruct user as [x_user|]; [|left; eauto].
  destruct (UserStore.truthy (UserStore.x_extUserId x_user)) eqn:Hext; cbn [negb];
    [|left; eauto].
  destruct (negb _ && negb _ && negb _); [left; eauto|].
  destruct (UserStore.truthy (UserStore.x_provider x_user)); cbn [negb]; [|left; eauto].
  destruct (UserStore.x_extUserId x_user) as [x|] eqn:Hx; [|discriminate].
  destruct (filter _ (UserStore.users db)) as [|found rest] eqn:Hfind.
  - destruct (UserStore.new_user _ _ _ _) as [doc|e] eqn:Hnew; [|left; eauto].
    destruct (UserStore.entity_valid c doc); [|left; eauto].
    right. right. exists x_user, x, doc. repeat split; auto.
    intros r Hr Heq.
    assert (Hin : In r (filter (fun r => string_eqb (UserStore.extUserId r) x)
                               (UserStore.users db))).
    { apply filter_In. split; [assumption|now apply string_eqb_eq]. }
    rewrite Hfind in Hin. contradiction.
  - right. left. exists x_user, found.
    assert (Hin : In found (filter (fun r => string_eqb (UserStore.extUserId r) x)
                                   (UserStore.users db))) by (rewrite Hfind; now left).
    apply filter_In in Hin. destruct Hin as [Hin Heq]. apply string_eqb_eq in Heq.
    repeat split; auto. now rewrite Heq.
Qed.

Lemma toLowerCase_empty (s : string) : UserStore.toLowerCase s = "" -> s = "".
Proof. destruct s; [reflexivity|discriminate]. Qed.

Lemma register_cases (w : UserStore.Services) (userId p_username p_displayName : option string)
      (p_challenges p_scripts : UserStore.Param) (db : UserStore.Db) :
  (exists e, UserStore.register w userId p_username p_displayName p_challenges p_scripts db =
             (db, UserStore.Err e)) \/
  (exists i response,
     userId = Some i /\ i <> "" /\
     find (fun r => string_eqb (UserStore.id r) i) (UserStore.users db) = Some response /\
     UserStore.registered response = false /\
     let name := registration_username p_username response in
     let shown := registration_displayName p_displayName response in
     UserStore.validateUserName name = UserStore.Ok tt /\
     UserStore.validateDisplayName shown = UserStore.Ok tt /\
     (forall r, In r (UserStore.users db) -> UserStore.registered r = true ->
                UserStore.username r <> name) /\
     UserStore.register w userId p_username p_displayName p_challenges p_scripts db =
     ({| UserStore.users :=
           map (fun r => if string_eqb (UserStore.id r) i
                         then registered_as name shown r else r) (UserStore.users db);
         UserStore.created := UserStore.created db |},
      UserStore.register_init w p_challenges p_scripts)).
Proof.
  unfold UserStore.register. destruct userId as [i|]; [|left; eauto].
  destruct (string_eqb i "") eqn:Hi; [left; eauto|]. apply string_eqb_neq in Hi.
  destruct (find _ (UserStore.users db)) as [response|] eqn:Hfind; [|left; eauto].
  destruct (UserStore.registered response) eqn:Hreg; [left; eauto|].
  set (name0 := match p_username with
                | Some u => if UserStore.truthy p_username then UserStore.toLowerCase u else ""
                | None => ""
                end).
  set (shown0 := match p_displayName with Some d => d | None => "" end).
  assert (Hname : (if string_eqb name0 "" then UserStore.username response else name0) =
                  registration_username p_username response).
  { unfold name0, registration_username. destruct p_username as [u|]; [|reflexivity].
    cbn [UserStore.truthy]. destruct (string_eqb u "") eqn:Hu; cbn [negb]; [reflexivity|].
    destruct (string_eqb (UserStore.toLowerCase u) "") eqn:Hl; [|reflexivity].
    apply string_eqb_eq, toLowerCase_empty in Hl. apply string_eqb_neq in Hu. contradiction. }
  assert (Hshown : (if string_eqb shown0 "" then UserStore.displayName response else shown0) =
                   registration_displayName p_displayName response).
  { unfold shown0, registration_displayName. destruct p_displayName as [d|]; [|reflexivity].
    now destruct (string_eqb d ""). }
  rewrite Hname, Hshown.
  destruct (UserStore.validateUserName _) as [[]|e] eqn:Hvu; [|left; eauto].
  destruct (UserStore.validateDisplayName _) as [[]|e] eqn:Hvd; [|left; eauto].
  destruct (filter _ (UserStore.users db)) as [|taken rest] eqn:Htaken; [|left; eauto].
  right. exists i, response. repeat split; auto.
  intros r Hr Hrreg Heq.
  assert (Hin : In r (filter (fun r => string_eqb (UserStore.username r)
                                         (registration_username p_username response) &&
                                       UserStore.registered r) (UserStore.users db))).
  { apply filter_In. split; [assumption|].
    rewrite Hrreg, andb_true_r. now apply string_eqb_eq. }
  rewrite Htaken in Hin. contradiction.
Qed.

Lemma validateDisplayName_Ok (displayName : string) :
  UserStore.validateDisplayName displayName = UserStore.Ok tt -> displayName <> "".
Proof.
  unfold UserStore.validateDisplayName.
  destruct (string_eqb displayName "") eqn:Hne; [discriminate|].
  intros _. now apply string_eqb_neq.
Qed.

Lemma findOrCreate_users_ok (c : UserStore.Config) (now : Z)
      (user : option UserStore.ExtUser) (db : UserStore.Db) :
  users_ok db -> users_ok (fst (UserStore.findOrCreate c now user db)).
Proof.
  intros Hok.
  destruct (findOrCreate_cases c now user db)
    as [[e ->]|[[x_user [found [_ [_ [_ ->]]]]]|[x_user [x [doc [_ [Hx [Hnew [Hdoc ->]]]]]]]]];
    try assumption.
  destruct Hok as [Hids [Hext [Hissued Hnames]]].
  destruct (new_user_fields _ _ _ _ _ Hdoc) as [Hid [Hu [Hd [_ [Hdx _]]]]].
  rewrite Hx in Hdx.
  cbn [fst]. unfold users_ok. cbn [UserStore.users UserStore.created].
  rewrite !map_app. cbn [map].
  split; [|split; [|split]].
  - apply (Permutation_NoDup (l := UserStore.id doc :: map UserStore.id (UserStore.users db)));
      [apply Permutation_cons_append|].
    constructor; [|assumption]. rewrite Hid. intros Hin.
    apply in_map_iff in Hin. destruct Hin as [r [Hr Hin]].
    rewrite Forall_forall in Hissued. destruct (Hissued r Hin) as [k [Hk Hrk]].
    rewrite Hrk in Hr. apply decimal_inj in Hr. lia.
  - apply (Permutation_NoDup
             (l := UserStore.extUserId doc :: map UserStore.extUserId (UserStore.users db)));
      [apply Permutation_cons_append|].
    constructor; [|assumption]. rewrite Hdx. intros Hin.
    apply in_map_iff in Hin. destruct Hin as [r [Hr Hin]]. exact (Hnew r Hin Hr).
  - apply Forall_app. split.
    + eapply Forall_impl; [|exact Hissued]. intros r [k [Hk Hr]]. exists k. split; [lia|auto].
    + constructor; [|constructor]. exists (UserStore.created db). split; [lia|auto].
  - apply Forall_app. split; [assumption|]. constructor; [|constructor]. auto.
Qed.

Lemma findOrCreate_registered_ok (c : UserStore.Config) (now : Z)
      (user : option UserStore.ExtUser) (db : UserStore.Db) :
  registered_ok db -> registered_ok (fst (UserStore.findOrCreate c now user db)).
Proof.
  intros Hok.
  destruct (findOrCreate_cases c now user db)
    as [[e ->]|[[x_user [found [_ [_ [_ ->]]]]]|[x_user [x [doc [_ [Hx [Hnew [Hdoc ->]]]]]]]]];
    try assumption.
  destruct Hok as [Hvalid Hnames].
  destruct (new_user_fields _ _ _ _ _ Hdoc) as [_ [_ [_ [Hreg _]]]].
  cbn [fst]. unfold registered_ok. cbn [UserStore.users]. split.
  - apply Forall_app. split; [assumption|]. constructor; [|constructor]. congruence.
  - rewrite filter_app. cbn [filter]. rewrite Hreg. now rewrite app_nil_r.
Qed.

Lemma find_id_unique (i : string) (l : list UserStore.User) (response r : UserStore.User) :
  NoDup (map UserStore.id l) ->
  find (fun r => string_eqb (UserStore.id r) i) l = Some response ->
  In r l -> UserStore.id r = i -> r = response.
Proof.
  intros Hnd Hfind Hin Hid. apply find_some in Hfind. destruct Hfind as [Hinr Hidr].
  apply string_eqb_eq in Hidr.
  apply (NoDup_map_eq UserStore.id l); auto. congruence.
Qed.

Lemma register_users_ok (w : UserStore.Services) (userId p_username p_displayName : option string)
      (p_challenges p_scripts : UserStore.Param) (db : UserStore.Db) :
  users_ok db ->
  users_ok (fst (UserStore.register w userId p_username p_displayName p_challenges p_scripts db)).
Proof.
  intros Hok.
  destruct (register_cases w userId p_username p_displayName p_challenges p_scripts db)
    as [[e ->]|[i [response [_ [_ [_ [_ [Hvu [Hvd [_ ->]]]]]]]]]]; [assumption|].
  destruct Hok as [Hids [Hext [Hissued Hnames]]].
  cbn [fst]. unfold users_ok. cbn [UserStore.users UserStore.created].
  set (f := fun r => if string_eqb (UserStore.id r) i then _ else r).
  assert (Hmid : map UserStore.id (map f (UserStore.users db)) =
                 map UserStore.id (UserStore.users db)).
  { rewrite map_map. apply map_ext. intros r. unfold f.
    now destruct (string_eqb (UserStore.id r) i). }
  assert (Hmext : map UserStore.extUserId (map f (UserStore.users db)) =
                  map UserStore.extUserId (UserStore.users db)).
  { rewrite map_map. apply map_ext. intros r. unfold f.
    now destruct (string_eqb (UserStore.id r) i). }
  rewrite Hmid, Hmext. repeat split; auto.
  - rewrite Forall_forall in *. intros r Hr. apply in_map_iff in Hr.
    destruct Hr as [r0 [<- Hr0]]. destruct (Hissued r0 Hr0) as [k [Hk Hid]].
    exists k. split; [assumption|]. unfold f.
    now destruct (string_eqb (UserStore.id r0) i).
  - rewrite Forall_forall in *. intros r Hr. apply in_map_iff in Hr.
    destruct Hr as [r0 [<- Hr0]]. unfold f.
    destruct (string_eqb (UserStore.id r0) i); [|now apply Hnames].
    cbn. split.
    + now apply validateUserName_Ok in Hvu.
    + now apply validateDisplayName_Ok in Hvd.
Qed.

Lemma registered_names_after (i name shown : string) (l : list UserStore.User) :
  NoDup (map UserStore.id l) ->
  NoDup (map UserStore.username (filter UserStore.registered l)) ->
  (forall r, In r l -> UserStore.id r = i -> UserStore.registered r = false) ->
  (forall r, In r l -> UserStore.registered r = true -> UserStore.username r <> name) ->
  NoDup (map UserStore.username
             (filter UserStore.registered
                     (map (fun r => if string_eqb (UserStore.id r) i
                                    then registered_as name shown r else r) l))).
Proof.
  set (f := fun r => if string_eqb (UserStore.id r) i then registered_as name shown r else r).
  induction l as [|r rest IH]; intros Hids Hnames Hunreg Hfree; [constructor|].
  inversion Hids as [|? ? Hnotin Hids']; subst.
  assert (Hunreg' : forall x, In x rest -> UserStore.id x = i -> UserStore.registered x = false)
    by (intros x Hx; apply Hunreg; now right).
  assert (Hfree' : forall x, In x rest -> UserStore.registered x = true ->
                             UserStore.username x <> name)
    by (intros x Hx; apply Hfree; now right).
  assert (Htail : forall n, In n (map UserStore.username
                                      (filter UserStore.registered (map f rest))) ->
                  n = name \/
                  In n (map UserStore.username (filter UserStore.registered rest))).
  { intros n Hn. apply in_map_iff in Hn. destruct Hn as [x [<- Hx]].
    apply filter_In in Hx. destruct Hx as [Hx Hxreg].
    apply in_map_iff in Hx. destruct Hx as [x0 [<- Hx0]]. unfold f in *.
    destruct (string_eqb (UserStore.id x0) i); [now left|].
    right. apply in_map. apply filter_In. auto. }
  cbn [map]. unfold f at 1.
  destruct (string_eqb (UserStore.id r) i) eqn:Hri.
  - apply string_eqb_eq in Hri.
    assert (Hr : UserStore.registered r = false) by (apply Hunreg; [now left|assumption]).
    cbn [filter] in Hnames. rewrite Hr in Hnames.
    assert (Hsame : map f rest = rest).
    { rewrite <- (map_id rest) at 2. apply map_ext_in. intros x Hx. unfold f.
      destruct (string_eqb (UserStore.id x) i) eqn:Hxi; [|reflexivity].
      apply string_eqb_eq in Hxi. exfalso. apply Hnotin. rewrite Hri, <- Hxi.
      now apply in_map. }
    rewrite Hsame. cbn [filter registered_as UserStore.registered map UserStore.username].
    constructor; [|assumption].
    intros Hin. apply in_map_iff in Hin. destruct Hin as [x [Hx Hin]].
    apply filter_In in Hin. destruct Hin as [Hin Hxreg].
    exact (Hfree' x Hin Hxreg Hx).
  - cbn [filter]. destruct (UserStore.registered r) eqn:Hr.
    + cbn [filter] in Hnames. rewrite Hr in Hnames. cbn [map] in *.
      inversion Hnames as [|? ? Hnotin' Hnames']; subst.
      constructor; [|now apply IH].
      intros Hin. destruct (Htail _ Hin) as [Heq|Hold]; [|contradiction].
      exact (Hfree r (or_introl eq_refl) Hr Heq).
    + cbn [filter] in Hnames. rewrite Hr in Hnames. now apply IH.
Qed.

Lemma register_registered_ok (w : UserStore.Services)
      (userId p_username p_displayName : option string)
      (p_challenges p_scripts : UserStore.Param) (db : UserStore.Db) :
  users_ok db -> registered_ok db ->
  registered_ok
    (fst (UserStore.register w userId p_username p_displayName p_challenges p_scripts db)).
Proof.
  intros [Hids _] Hok.
  destruct (register_cases w userId p_username p_displayName p_challenges p_scripts db)
    as [[e ->]|[i [response [_ [_ [Hfind [Hreg [Hvu [Hvd [Hfree ->]]]]]]]]]]; [assumption|].
  destruct Hok as [Hvalid Hnames]. cbn [fst]. unfold registered_ok.
  cbn [UserStore.users]. split.
  - rewrite Forall_forall in *. intros r Hr. apply in_map_iff in Hr.
    destruct Hr as [r0 [<- Hr0]].
    destruct (string_eqb (UserStore.id r0) i); [|now apply Hvalid].
    cbn. auto.
  - apply registered_names_after; auto.
    intros r Hr Hid. now rewrite (find_id_unique i _ response r Hids Hfind Hr Hid).
Qed.

Lemma users_run_ok (calls : list UserStore.Call) :
  users_ok (UserStore.run calls) /\ registered_ok (UserStore.run calls).
Proof.
  unfold UserStore.run.
  assert (H : users_ok UserStore.empty /\ registered_ok UserStore.empty).
  { unfold users_ok, registered_ok. cbn. repeat split; constructor. }
  revert H. generalize UserStore.empty.
  induction calls as [|call rest IH]; intros db [Hu Hr]; [now split|].
  cbn [fold_left]. apply IH. destruct call as [c now user|w userId u d cs ss]; cbn [UserStore.perform].
  - split; [now apply findOrCreate_users_ok|now apply findOrCreate_registered_ok].
  - split; [now apply register_users_ok|now apply register_registered_ok].
Qed.

(** X23.  After any sequence of [findOrCreate] and [register] calls on an
    empty collection, no two users share an identifier or an external
    identifier, and every user has a user name and a display name that are
    not empty. *)
Theorem users_kept_apart (calls : list UserStore.Call) :
  let db := UserStore.run calls in
  NoDup (map UserStore.id (UserStore.users db)) /\
  NoDup (map UserStore.extUserId (UserStore.users db)) /\
  forall r, In r (UserStore.users db) ->
            UserStore.username r <> "" /\ UserStore.displayName r <> "".
Proof.
  intros db. destruct (users_run_ok calls) as [[Hids [Hext [_ Hnames]]] _].
  split; [exact Hids|]. split; [exact Hext|].
  rewrite Forall_forall in Hnames. exact Hnames.
Qed.

(** X24.  After any sequence of [findOrCreate] and [register] calls on an
    empty collection, every registered user has a user name that
    [validateUserName] accepts and a display name that
    [validateDisplayName] accepts, and no two registered users have the same
    user name. *)
Theorem registered_users_valid (calls : list UserStore.Call) :
  let db := UserStore.run calls in
  (forall r, In r (UserStore.users db) -> UserStore.registered r = true ->
             UserStore.validateUserName (UserStore.username r) = UserStore.Ok tt /\
             UserStore.validateDisplayName (UserStore.displayName r) = UserStore.Ok tt) /\
  (forall r r', In r (UserStore.users db) -> In r' (UserStore.users db) ->
                UserStore.registered r = true -> UserStore.registered r' = true ->
                UserStore.username r = UserStore.username r' -> r = r').
Proof.
  intros db. destruct (users_run_ok calls) as [_ [Hvalid Hnames]]. fold db in Hvalid, Hnames.
  split; [rewrite Forall_forall in Hvalid; exact Hvalid|].
  intros r r' Hr Hr' Hreg Hreg' Heq.
  apply (NoDup_map_eq UserStore.username (filter UserStore.registered (UserStore.users db)));
    auto; apply filter_In; auto.
Qed.

Lemma findOrCreate_Ok_guards (c : UserStore.Config) (now : Z)
      (user : option UserStore.ExtUser) (db db' : UserStore.Db) (doc : UserStore.User) :
  UserStore.findOrCreate c now user db = (db', UserStore.Ok doc) ->
  exists x_user x,
    user = Some x_user /\ UserStore.x_extUserId x_user = Some x /\
    UserStore.extUserId doc = x /\
    UserStore.truthy (UserStore.x_extUserId x_user) = true /\
    negb (UserStore.truthy (UserStore.x_username x_user)) &&
    negb (UserStore.truthy (UserStore.x_email x_user)) &&
    negb (UserStore.truthy (UserStore.x_displayName x_user)) = false /\
    UserStore.truthy (UserStore.x_provider x_user) = true /\
    (db' = db /\ In doc (UserStore.users db) \/
     db' = {| UserStore.users := UserStore.users db ++ [doc];
              UserStore.created := S (UserStore.created db) |} /\
     forall r, In r (UserStore.users db) -> UserStore.extUserId r <> x).
Proof.
  unfold UserStore.findOrCreate. destruct user as [x_user|]; [|discriminate].
  destruct (UserStore.truthy (UserStore.x_extUserId x_user)) eqn:Hext; cbn [negb];
    [|discriminate].
  destruct (negb _ && negb _ && negb _) eqn:Hname; [discriminate|].
  destruct (UserStore.truthy (UserStore.x_provider x_user)) eqn:Hprov; cbn [negb];
    [|discriminate].
  destruct (UserStore.x_extUserId x_user) as [x|] eqn:Hx; [|discriminate].
  destruct (filter _ (UserStore.users db)) as [|found rest] eqn:Hfind.
  - destruct (UserStore.new_user _ _ _ _) as [d|e] eqn:Hnew; [|discriminate].
    destruct (UserStore.entity_valid c d); [|discriminate].
    intros [= <- <-]. exists x_user, x.
    destruct (new_user_fields _ _ _ _ _ Hnew) as [_ [_ [_ [_ [Hdx _]]]]].
    rewrite Hx in Hdx. rewrite Hx. repeat (split; [solve [auto]|]). right.
    split; [reflexivity|].
    intros r Hr Heq.
    assert (Hin : In r (filter (fun r => string_eqb (UserStore.extUserId r) x)
                               (UserStore.users db))).
    { apply filter_In. split; [assumption|now apply string_eqb_eq]. }
    rewrite Hfind in Hin. contradiction.
  - intros [= <- <-]. exists x_user, x.
    assert (Hin : In found (filter (fun r => string_eqb (UserStore.extUserId r) x)
                                   (UserStore.users db))) by (rewrite Hfind; now left).
    apply filter_In in Hin. destruct Hin as [Hin Heq]. apply string_eqb_eq in Heq.
    rewrite Hx. repeat (split; [solve [auto]|]). left. auto.
Qed.

(** X25.  [findOrCreate] creates a user once: when a call returns a user,
    every later call for the same external user on the resulting collection
    returns that very document and creates nothing, whatever the time and
    the configuration. *)
Theorem findOrCreate_again (c c' : UserStore.Config) (now now' : Z)
        (user : option UserStore.ExtUser) (db db' : UserStore.Db) (doc : UserStore.User) :
  UserStore.findOrCreate c now user db = (db', UserStore.Ok doc) ->
  UserStore.findOrCreate c' now' user db' = (db', UserStore.Ok doc).
Proof.
  intros Hfirst. pose proof Hfirst as Hguards.
  apply findOrCreate_Ok_guards in Hguards.
  destruct Hguards as [x_user [x [-> [Hx [Hdx [Hext [Hname [Hprov Hcases]]]]]]]].
  destruct Hcases as [[-> Hin]|[-> Hnone]].
  - revert Hfirst. unfold UserStore.findOrCreate.
    rewrite Hext, Hname, Hprov, Hx. cbn [negb].
    destruct (filter _ (UserStore.users db)) as [|found rest]; [|now intros [= ->]].
    destruct (UserStore.new_user _ _ _ _) as [d|]; [|discriminate].
    destruct (UserStore.entity_valid c d); [|discriminate].
    intros [= Hdb _]. exfalso.
    apply (f_equal UserStore.created) in Hdb. cbn in Hdb. lia.
  - unfold UserStore.findOrCreate.
    rewrite Hext, Hname, Hprov, Hx. cbn [negb UserStore.users].
    rewrite filter_app. cbn [filter].
    rewrite (proj2 (string_eqb_eq _ _) Hdx).
    rewrite filter_none; [reflexivity|].
    intros r Hr. apply string_eqb_neq. now apply Hnone.
Qed.

(** X26.  A user who comes with a display name but with neither a user name
    nor an e-mail address passes the checks of [findOrCreate] and then fails
    in the [before create] hook with a [TypeError], which calls [replace] on
    the missing e-mail address; nothing is stored. *)
Theorem findOrCreate_display_name_only (c : UserStore.Config) (now : Z)
        (x_user : UserStore.ExtUser) (db : UserStore.Db) (x : string) :
  UserStore.x_extUserId x_user = Some x -> x <> "" ->
  UserStore.truthy (UserStore.x_provider x_user) = true ->
  UserStore.truthy (UserStore.x_displayName x_user) = true ->
  UserStore.truthy (UserStore.x_username x_user) = false ->
  UserStore.x_email x_user = None ->
  (forall r, In r (UserStore.users db) -> UserStore.extUserId r <> x) ->
  UserStore.findOrCreate c now (Some x_user) db = (db, UserStore.Err UserStore.TypeError).
Proof.
  intros Hx Hne Hprov Hshown Hname Hmail Hnew.
  unfold UserStore.findOrCreate. rewrite Hx, Hprov, Hshown, Hname, Hmail.
  cbn [UserStore.truthy negb andb]. rewrite (proj2 (string_eqb_neq _ _) Hne). cbn [negb].
  rewrite filter_none.
  - unfold UserStore.new_user, UserStore.default_username. rewrite Hmail.
    destruct (UserStore.x_username x_user) as [u|]; [|reflexivity].
    cbn in Hname. now rewrite Hname.
  - intros r Hr. apply string_eqb_neq. now apply Hnew.
Qed.



(** A request whose challenges cannot be iterated fails at line 721, with
    the caller already stored as registered. *)
Lemma register_fails_after_storing :
  let call := UserStore.register sample_services (Some "1") None None
                                 UserStore.NotIterable UserStore.Falsy sample_users in
  snd call = UserStore.Err UserStore.TypeError /\
  option_map UserStore.registered
             (find (fun r => string_eqb (UserStore.id r) "1") (UserStore.users sample_users)) =
    Some false /\
  option_map UserStore.registered
             (find (fun r => string_eqb (UserStore.id r) "1") (UserStore.users (fst call))) =
    Some true.
Proof. vm_compute. auto. Qed.

(** X28.  [register] refuses a user name whose lower-case form is, letter
    for letter, the stored user name of a registered user, and changes
    nothing.  (A name stored with capital letters is compared as it is and
    does not keep its lower-case form from being registered:
    [capital_name_free].) *)
Theorem taken_username_refused (w : UserStore.Services) (userId p_displayName : option string)
        (username : string) (p_challenges p_scripts : UserStore.Param)
        (db : UserStore.Db) (holder : UserStore.User) :
  In holder (UserStore.users db) ->
  UserStore.registered holder = true ->
  UserStore.username holder = UserStore.toLowerCase username ->
  username <> "" ->
  exists e, UserStore.register w userId (Some username) p_displayName
                               p_challenges p_scripts db =
            (db, UserStore.Err e).
Proof.
  intros Hin Hreg Hname Hne.
  destruct (register_cases w userId (Some username) p_displayName p_challenges p_scripts db)
    as [Herr|[i [response [_ [_ [_ [_ [_ [_ [Hfree _]]]]]]]]]]; [exact Herr|].
  exfalso. apply (Hfree holder Hin Hreg).
  cbn. now rewrite (proj2 (string_eqb_neq _ _) Hne).
Qed.

(** Monica registered under the name of her login provider, [Monica83]
    (line 690 takes it as it is); Amy then registers [MONICA83] and is
    stored as [monica83]. *)
Lemma capital_name_free :
  let call := UserStore.register sample_services (Some "1") (Some "MONICA83") None
                                 UserStore.Falsy UserStore.Falsy sample_users_capital in
  map UserStore.username (filter UserStore.registered (UserStore.users sample_users_capital)) =
    ["Monica83"] /\
  snd call = UserStore.Ok "{}" /\
  map UserStore.username (filter UserStore.registered (UserStore.users (fst call))) =
    ["Monica83"; "monica83"].
Proof. vm_compute. auto. Qed.

(** ** The further properties at work on the samples *)

Lemma updateRank_unknown_id_witness :
  updateRank "0" true initial = (initial, Err EntityNotFound).
Proof. apply (updateRank_unknown_id initial "0" true). reflexivity. Defined.

Lemma updateRank_score_range_witness :
  exists e',
    stored "0" (fst (updateRank "0" false (run [monica_joins; UpdateRank "0" true]))) = Some e' /\
    0 <= score e' <= 10000.
Proof.
  destruct (updateRank_score_range (run [monica_joins; UpdateRank "0" true]) "0" false
              _ eq_refl ltac:(vm_compute; split; discriminate))
    as [e' [Hstored [Hrange _]]].
  exists e'. split; assumption.
Defined.

Lemma updateRank_score_stalls_witness :
  exists won lost,
    option_map score (stored "0" (fst (updateRank "0" true (run [monica_joins])))) = Some won /\
    option_map score (stored "0" (fst (updateRank "0" false (run [monica_joins])))) = Some lost /\
    0 < won /\ lost = 0.
Proof.
  destruct (updateRank_score_stalls (run [monica_joins]) "0" _ eq_refl)
    as [won [lost [Hwon [Hlost [Hraise [_ [_ Hstay]]]]]]].
  exists won, lost. split; [exact Hwon|]. split; [exact Hlost|]. split.
  - apply Hraise. vm_compute. discriminate.
  - apply Hstay. vm_compute. split; discriminate.
Defined.

Lemma updateRank_other_entries_witness :
  stored "1" (fst (updateRank "0" true (run [monica_joins; another_joins]))) =
  stored "1" (run [monica_joins; another_joins]).
Proof.
  apply (updateRank_other_entries [monica_joins; another_joins] "0" "1" true).
  discriminate.
Defined.


Lemma joinLeague_other_owners_witness :
  RankTable.getLength
    (ranktable (fst (joinLeague sample_world (Some "92864") "152674" 3000
                                (run [monica_joins; another_joins])))) = 2%nat.
Proof.
  destruct (joinLeague_other_owners [monica_joins; another_joins] sample_world
              "92864" "152674" 3000 _ eq_refl) as [_ [_ Hlen]].
  rewrite Hlen. reflexivity.
Defined.

Lemma join_then_leave_witness :
  ranktable (fst (leaveLeague (Some "92864")
                    (fst (joinLeague sample_world (Some "92864") "152674" 3000
                                     (run [another_joins]))))) =
  ranktable (fst (leaveLeague (Some "92864") (run [another_joins]))).
Proof.
  apply (join_then_leave [another_joins] sample_world "92864" "152674" 3000 _ eq_refl).
Defined.


Lemma league_requires_login_witness :
  leaveLeague None initial = (initial, Err NotAuthorized) /\
  leaveLeague (Some "") initial = (initial, Err NotAuthorized).
Proof.
  split.
  - apply (league_requires_login None initial). now left.
  - apply (league_requires_login (Some "") initial). now right.
Defined.

Lemma getScript_after_join_witness :
  exists view,
    snd (getScript (Some "123456") "0" (run [monica_joins])) = Ok view /\
    view_scriptName view = "monica83/reptori8743" /\
    view_code view = "// hello 17487252".
Proof.
  destruct (getScript_after_join [] sample_world (Some "92864") "152674" 1000 _ "123456"
              eq_refl ltac:(discriminate))
    as [[script [entity [Hscript [Hsub Hget]]]] _].
  injection Hscript as <-. cbn in Hsub. injection Hsub as <-.
  eexists. split; [|split].
  - change (run [monica_joins]) with (fst (joinLeague sample_world (Some "92864") "152674"
                                                      1000 (run []))).
    change "0" with (id (fields (addDefaults 1000 (submitted sample_world ownScript 0) "0"))) at 1.
    rewrite Hget. reflexivity.
  - reflexivity.
  - reflexivity.
Defined.

Lemma reserved_names_any_case_witness :
  UserStore.validateUserName "AdMiN" = UserStore.Err UserStore.UsernameReserved.
Proof. apply (reserved_names_any_case "AdMiN"). cbn. auto. Defined.

Lemma valid_username_is_valid_displayName_witness :
  UserStore.validateDisplayName "monica83" = UserStore.Ok tt.
Proof. apply (valid_username_is_valid_displayName "monica83"). reflexivity. Defined.

Lemma findOrCreate_again_witness :
  exists doc,
    UserStore.findOrCreate sample_config 5 (Some monica) sample_users =
      (sample_users, UserStore.Ok doc) /\
    UserStore.findOrCreate sample_config 9 (Some monica) sample_users =
      (sample_users, UserStore.Ok doc).
Proof.
  eexists. split; [reflexivity|].
  apply (findOrCreate_again sample_config sample_config 5 9 (Some monica)
           sample_users sample_users).
  reflexivity.
Defined.

Lemma findOrCreate_display_name_only_witness :
  UserStore.findOrCreate sample_config 0 (Some nameless) sample_users =
  (sample_users, UserStore.Err UserStore.TypeError).
Proof.
  apply (findOrCreate_display_name_only sample_config 0 nameless sample_users "github_7");
    try reflexivity; try discriminate.
  intros r Hr. vm_compute in Hr. destruct Hr as [<-|[<-|[]]]; discriminate.
Defined.

Lemma taken_username_refused_witness :
  exists e, UserStore.register sample_services (Some "1") (Some "MONICA83") None
                               UserStore.Falsy UserStore.Falsy sample_users =
            (sample_users, UserStore.Err e).
Proof.
  eapply (taken_username_refused sample_services (Some "1") None "MONICA83"
            UserStore.Falsy UserStore.Falsy sample_users).
  - cbv. left. reflexivity.
  - reflexivity.
  - reflexivity.
  - discriminate.
Defined.
